(** * Movement brokering engine: gateway and route optimizer

    A shallow embedding of [src/core/router.py] (class [RouteOptimizer]),
    [src/core/gateway.py] (class [TesseractsGateway]) and of the data types of
    [src/models/core.py] and [src/adapters/base.py] they operate on.

    Conventions of the embedding.
    - A Python [float] and a [Decimal] are read as exact rationals ([Q]); a
      score written [0.3] in the source is the rational [0.3].  Equality of
      scores is therefore [Qeq] ([==]).
    - A [datetime] is a rational number of seconds on the UTC time line; a
      difference of two of them is the [timedelta] whose [total_seconds()]
      is the difference of the two numbers.
    - [datetime.utcnow()] is an input: every operation that reads the clock
      takes the value read as its argument [now].
    - A call that may raise returns a [result]; a method that mutates the
      gateway returns the new gateway next to its result.
    - The dictionaries [active_quotes], [active_jobs] and [weights] are
      finite maps; the dictionary [providers], whose iteration order is
      observable, is an insertion-ordered association list.
    - A [Job] is a value carrying the fields the gateway reads or writes; the
      registry holds values, so a provider that keeps the object it returned
      and later assigns to it is outside the embedding.
    - One ranking scores all its quotes at one clock value. The source reads
      the clock again for each quote and computes in doubles, so nothing
      below speaks about the relative order of quotes whose scores are equal
      or nearly so, nor about sums that lie on the tolerance bound of
      [update_weights]. *)

From Stdlib Require Import QArith Qminmax Qabs Lqa.
From stdpp Require Import gmap strings list.

(** ** Data model ([src/models/core.py]) *)

Inductive ServiceType := RIDESHARE | DELIVERY | COURIER | FREIGHT | GIG_WORK.
Inductive JobStatus :=
  PENDING | ASSIGNED | IN_PROGRESS | COMPLETED | CANCELLED | FAILED.
Inductive Priority := LOW | NORMAL | HIGH | URGENT.

#[global] Instance ServiceType_eq_dec : EqDecision ServiceType.
Proof. solve_decision. Defined.
#[global] Instance JobStatus_eq_dec : EqDecision JobStatus.
Proof. solve_decision. Defined.
#[global] Instance Priority_eq_dec : EqDecision Priority.
Proof. solve_decision. Defined.

Definition datetime := Q.
Bind Scope Q_scope with datetime.

(** [(a - b).total_seconds()] *)
Definition total_seconds (a b : datetime) : Q := (a - b)%Q.

(** [a > b] on rationals, as a boolean. *)
Definition Qgt_bool (a b : Q) : bool := negb (Qle_bool a b).

Record Location := mkLocation {
  latitude : Q;
  longitude : Q;
  address : option string
}.

Record Vehicle := mkVehicle {
  vehicle_type : string
}.

Record Worker := mkWorker {
  worker_id : string;
  worker_name : string;
  rating : option Q;
  vehicle : option Vehicle;
  current_location : option Location;
  is_available : bool;
  worker_provider_id : string
}.

Record Quote := mkQuote {
  quote_provider_id : string;
  quote_service_type : ServiceType;
  estimated_cost : Q;
  estimated_pickup_time : datetime;
  estimated_delivery_time : datetime;
  estimated_duration_minutes : Z;
  worker_info : option Worker;
  expires_at : datetime;
  quote_id : string;
  confidence_score : Q
}.

Record MovementRequest := mkMovementRequest {
  service_type : ServiceType;
  pickup_location : Location;
  dropoff_location : Location;
  requested_pickup_time : option datetime;
  priority : Priority
}.

Record Job := mkJob {
  job_id : string;
  job_service_type : ServiceType;
  status : JobStatus;
  job_pickup_location : Location;
  job_dropoff_location : Location;
  assigned_worker : option Worker;
  job_provider_id : option string;
  provider_job_id : option string;
  created_at : datetime;
  updated_at : datetime
}.

Record JobUpdate := mkJobUpdate {
  update_job_id : string;
  update_status : JobStatus;
  update_location : option Location;
  update_message : option string
}.

Record MovementResponse := mkMovementResponse {
  request_id : string;
  quotes : list Quote;
  recommended_quote_id : option string
}.

(** The field constraints pydantic enforces when a [Worker] or a [Quote] is
    constructed: [rating: Field(None, ge=0, le=5)] and
    [confidence_score: Field(ge=0, le=1)]. *)
Definition Worker_valid (w : Worker) : Prop :=
  match rating w with
  | Some r => (0 <= r /\ r <= 5)%Q
  | None => True
  end.

Definition Quote_valid (q : Quote) : Prop :=
  (0 <= confidence_score q /\ confidence_score q <= 1)%Q /\
  match worker_info q with
  | Some w => Worker_valid w
  | None => True
  end.

(** [job.status = s; job.updated_at = now] *)
Definition set_status (s : JobStatus) (now : datetime) (j : Job) : Job :=
  {| job_id := job_id j;
     job_service_type := job_service_type j;
     status := s;
     job_pickup_location := job_pickup_location j;
     job_dropoff_location := job_dropoff_location j;
     assigned_worker := assigned_worker j;
     job_provider_id := job_provider_id j;
     provider_job_id := provider_job_id j;
     created_at := created_at j;
     updated_at := now |}.

(** A quote that differs from [q] in its [estimated_pickup_time] only. *)
Definition with_pickup_time (t : datetime) (q : Quote) : Quote :=
  {| quote_provider_id := quote_provider_id q;
     quote_service_type := quote_service_type q;
     estimated_cost := estimated_cost q;
     estimated_pickup_time := t;
     estimated_delivery_time := estimated_delivery_time q;
     estimated_duration_minutes := estimated_duration_minutes q;
     worker_info := worker_info q;
     expires_at := expires_at q;
     quote_id := quote_id q;
     confidence_score := confidence_score q |}.

(** [a == b] on two [Location]s: pydantic compares the fields one by
    one, the coordinates as numbers. *)
Definition Location_eqb (a b : Location) : bool :=
  Qeq_bool (latitude a) (latitude b)
  && Qeq_bool (longitude a) (longitude b)
  && bool_decide (address a = address b).

(** ** Exceptions and results *)

Inductive exn :=
  | QuoteNotFound      (* ValueError("Quote ... not found or expired") *)
  | QuoteExpired       (* ValueError("Quote ... has expired") *)
  | ProviderNotAvailable (* ValueError("Provider ... not available") *)
  | JobNotFound        (* ValueError("Job ... not found") *)
  | WeightsError       (* ValueError("Weights must sum to 1.0") *)
  | KeyError           (* del d[k] on a missing key *)
  | ProviderError (msg : string). (* whatever a provider call raised *)

Inductive result (A : Type) :=
  | Ok (a : A)
  | Raise (e : exn).
Arguments Ok {A} a.
Arguments Raise {A} e.

Definition is_ok {A} (r : result A) : bool :=
  match r with Ok _ => true | Raise _ => false end.

(** ** Insertion-ordered dictionaries *)

Section PyDict.
Context {V : Type}.

(** [d[k] = v]: the value is replaced in place when the key is there,
    the pair is appended otherwise. *)
Fixpoint dict_set (k : string) (v : V) (d : list (string * V))
  : list (string * V) :=
  match d with
  | [] => [(k, v)]
  | (k', v') :: d' =>
      if decide (k = k') then (k, v) :: d' else (k', v') :: dict_set k v d'
  end.

(** [d.get(k)] *)
Fixpoint dict_get (k : string) (d : list (string * V)) : option V :=
  match d with
  | [] => None
  | (k', v') :: d' => if decide (k = k') then Some v' else dict_get k d'
  end.

(** [d.values()] *)
Definition dict_values (d : list (string * V)) : list V := map snd d.
End PyDict.

(** ** Provider adapters ([src/adapters/base.py])

    The abstract class [ProviderAdapter]: an adapter is given by its declared
    capabilities and by what each of its coroutines answers, a value or a
    raised exception. *)

Module ProviderAdapter.
Record t := mk {
  provider_id : string;
  supported_service_types : list ServiceType;
  coverage_areas : list string;
  get_quote : MovementRequest -> result (option Quote);
  create_job : string -> MovementRequest -> result Job;
  get_job_status : string -> result JobUpdate;
  cancel_job : string -> result bool;
  get_available_workers : Location -> Q -> result (list Worker);
  health_check : result bool
}.
End ProviderAdapter.

(** ** The route optimizer ([src/core/router.py]) *)

Module RouteOptimizer.

Record t := mk {
  providers : list ProviderAdapter.t;
  weights : gmap string Q
}.

Definition default_weights : gmap string Q :=
  <["cost" := 0.3%Q]> (<["time" := 0.4%Q]>
    (<["reliability" := 0.2%Q]> (<["quality" := 0.1%Q]> ∅))).

(** [__init__] *)
Definition init (providers : list ProviderAdapter.t) : t :=
  mk providers default_weights.

(** [self.weights[k]]; the four keys read by the scorer are present in
    every optimizer built by [init] and updated by [update_weights]
    (lemma [weights_keys_present] below), so the default is never used. *)
Definition weight (ws : gmap string Q) (k : string) : Q :=
  default 0%Q (ws !! k).

Definition suitable (request : MovementRequest) (p : ProviderAdapter.t)
  : bool :=
  bool_decide (service_type request ∈ ProviderAdapter.supported_service_types p)
  && (bool_decide ("global" ∈ ProviderAdapter.coverage_areas p)
      || bool_decide ("local" ∈ ProviderAdapter.coverage_areas p)).

Definition _filter_suitable_providers (self : t) (request : MovementRequest)
  : list ProviderAdapter.t :=
  List.filter (suitable request) (providers self).

(** [try: return await provider.get_quote(request) except: return None] *)
Definition _get_provider_quote (p : ProviderAdapter.t)
    (request : MovementRequest) : option Quote :=
  match ProviderAdapter.get_quote p request with
  | Ok quote => quote
  | Raise _ => None
  end.

Definition _normalize_cost_score (cost : Q) : Q :=
  let max_reasonable_cost := 100.00%Q in
  let min_reasonable_cost := 5.00%Q in
  if Qle_bool cost min_reasonable_cost then 1.0%Q
  else if Qle_bool max_reasonable_cost cost then 0.1%Q
  else
    let normalized :=
      (1.0 - (cost - min_reasonable_cost)
             / (max_reasonable_cost - min_reasonable_cost))%Q in
    Qmax 0.1 normalized.

Definition _normalize_time_score (now : datetime)
    (pickup_time delivery_time : datetime)
    (requested_pickup : option datetime) : Q :=
  let current_time := now in
  let pickup_delay_minutes := (total_seconds pickup_time current_time / 60)%Q in
  let total_duration_minutes := (total_seconds delivery_time pickup_time / 60)%Q in
  let pickup_score :=
    match requested_pickup with
    | Some requested =>
        let pickup_diff := Qabs (total_seconds pickup_time requested / 60) in
        Qmax 0 (1.0 - pickup_diff / 60)
    | None => Qmax 0.1 (1.0 - pickup_delay_minutes / 60)
    end in
  let max_reasonable_duration := 120%Q in
  let duration_score :=
    Qmax 0.1 (1.0 - total_duration_minutes / max_reasonable_duration) in
  ((pickup_score + duration_score) / 2)%Q.

(** [quote.worker_info and quote.worker_info.rating] is falsy when there is
    no worker, no rating, or a rating of [0.0]. *)
Definition _calculate_quality_score (quote : Quote) : Q :=
  let base_score := 0.7%Q in
  match worker_info quote with
  | Some w =>
      match rating w with
      | Some r => if Qeq_bool r 0 then base_score else (r / 5.0)%Q
      | None => base_score
      end
  | None => base_score
  end.

Definition _get_priority_adjustment (now : datetime) (priority : Priority)
    (quote : Quote) : Q :=
  match priority with
  | URGENT =>
      let current_time := now in
      let pickup_delay :=
        (total_seconds (estimated_pickup_time quote) current_time / 60)%Q in
      if Qle_bool pickup_delay 10 then 1.3%Q
      else if Qle_bool pickup_delay 20 then 1.1%Q
      else 0.7%Q
  | HIGH => (1.0 + (confidence_score quote - 0.5) * 0.2)%Q
  | LOW => 1.0%Q
  | NORMAL => 1.0%Q
  end.

(** The clock is read once in [_normalize_time_score] and, for an urgent
    request, once more in [_get_priority_adjustment]; both reads of one
    scoring are taken to return the same instant [now]. *)
Definition _calculate_quote_score (ws : gmap string Q) (now : datetime)
    (quote : Quote) (request : MovementRequest) : Q :=
  let cost_score := _normalize_cost_score (estimated_cost quote) in
  let time_score :=
    _normalize_time_score now (estimated_pickup_time quote)
      (estimated_delivery_time quote) (requested_pickup_time request) in
  let reliability_score := confidence_score quote in
  let quality_score := _calculate_quality_score quote in
  let priority_adjustment :=
    _get_priority_adjustment now (priority request) quote in
  ((weight ws "cost" * cost_score
    + weight ws "time" * time_score
    + weight ws "reliability" * reliability_score
    + weight ws "quality" * quality_score) * priority_adjustment)%Q.

(** [list.sort(key=lambda x: x[1], reverse=True)]: a stable sort, the
    larger score first, equal scores in their original order. *)
Fixpoint insert_desc (x : Quote * Q) (l : list (Quote * Q))
  : list (Quote * Q) :=
  match l with
  | [] => [x]
  | y :: l' =>
      if Qgt_bool (snd y) (snd x) then y :: insert_desc x l' else x :: y :: l'
  end.

Definition sort_desc (l : list (Quote * Q)) : list (Quote * Q) :=
  foldr insert_desc [] l.

(** Lines 58-68 of [get_optimal_quotes]: score, sort, keep the best. *)
Definition rank_quotes (ws : gmap string Q) (now : datetime)
    (request : MovementRequest) (max_quotes : nat)
    (valid_quotes : list Quote) : list Quote :=
  let scored_quotes :=
    map (fun quote => (quote, _calculate_quote_score ws now quote request))
        valid_quotes in
  map fst (take max_quotes (sort_desc scored_quotes)).

Definition get_optimal_quotes (self : t) (now : datetime)
    (request : MovementRequest) (max_quotes : nat) : list Quote :=
  let suitable_providers := _filter_suitable_providers self request in
  match suitable_providers with
  | [] => []
  | _ =>
      let quote_results :=
        map (fun p => _get_provider_quote p request) suitable_providers in
      let valid_quotes := omap id quote_results in
      match valid_quotes with
      | [] => []
      | _ => rank_quotes (weights self) now request max_quotes valid_quotes
      end
  end.

(** [sum(new_weights.values())] *)
Definition sum_values (m : gmap string Q) : Q :=
  map_fold (fun _ v acc => (acc + v)%Q) 0%Q m.

(** [self.weights.update(new_weights)] is the union in which the new
    entries win. *)
Definition update_weights (self : t) (new_weights : gmap string Q)
  : result unit * t :=
  let total_weight := sum_values new_weights in
  if Qgt_bool (Qabs (total_weight - 1.0)) 0.01 then (Raise WeightsError, self)
  else (Ok (), mk (providers self) (new_weights ∪ weights self)).

(** [result if isinstance(result, bool) else False] *)
Definition health_of (p : ProviderAdapter.t) : bool :=
  match ProviderAdapter.health_check p with
  | Ok b => b
  | Raise _ => false
  end.

(** The dictionary comprehension over [zip(self.providers, health_results)]:
    a later provider with the same id overwrites an earlier one. *)
Definition get_provider_health_status (self : t) : gmap string bool :=
  foldl (fun m p => <[ProviderAdapter.provider_id p := health_of p]> m)
        ∅ (providers self).

(** What [optimize_multi_stop_route] can end in: the list of legs, an
    exception ([stops[0]] on an empty list is an [IndexError],
    [list.remove] of an absent element a [ValueError]), or a loop the
    bound below did not suffice for. *)
Inductive route_error := IndexError | ValueError.

Inductive route_result :=
  | Route (legs : list (Location * Location))
  | RouteRaises (e : route_error)
  | RouteUnfinished.

(** [min(first :: rest, key=key)]: the first of the smallest elements. *)
Fixpoint min_by (key : Location -> Q) (best : Location) (l : list Location)
  : Location :=
  match l with
  | [] => best
  | y :: l' =>
      if Qgt_bool (key best) (key y) then min_by key y l' else min_by key best l'
  end.

(** [l.remove(x)]: the first element equal to [x] is taken out; [None] is
    the [ValueError] of a list without such an element. *)
Fixpoint list_remove (x : Location) (l : list Location)
  : option (list Location) :=
  match l with
  | [] => None
  | y :: l' =>
      if Location_eqb y x then Some l'
      else match list_remove x l' with
           | Some r => Some (y :: r)
           | None => None
           end
  end.

Section MultiStop.
(** [x ** 0.5], a floating-point square root the embedding leaves open. *)
Variable sqrt_float : Q -> Q.

Definition _calculate_distance (loc1 loc2 : Location) : Q :=
  let lat_diff := Qabs (latitude loc1 - latitude loc2) in
  let lng_diff := Qabs (longitude loc1 - longitude loc2) in
  (sqrt_float (lat_diff ^ 2 + lng_diff ^ 2) * 111)%Q.

(** The [while remaining_stops:] loop; [fuel] bounds the number of
    iterations. The result is the route and the last location reached. *)
Fixpoint nearest_neighbor_loop (fuel : nat) (current_location : Location)
    (remaining_stops : list Location)
    (optimized_route : list (Location * Location))
  : route_error + option (list (Location * Location) * Location) :=
  match remaining_stops with
  | [] => inr (Some (optimized_route, current_location))
  | first :: rest =>
      match fuel with
      | O => inr None
      | S fuel' =>
          let nearest_stop :=
            min_by (_calculate_distance current_location) first rest in
          match list_remove nearest_stop remaining_stops with
          | None => inl ValueError
          | Some remaining' =>
              nearest_neighbor_loop fuel' nearest_stop remaining'
                (optimized_route ++ [(current_location, nearest_stop)])
          end
      end
  end.

(** [stops[1:-1]] is [removelast (tl stops)]; the loop runs at most once
    per intermediate stop. *)
Definition optimize_multi_stop_route (stops : list Location)
    (service_type : ServiceType) : route_result :=
  if bool_decide (length stops <= 2)%nat then
    match head stops, last stops with
    | Some first, Some final => Route [(first, final)]
    | _, _ => RouteRaises IndexError
    end
  else
    let remaining_stops := removelast (tl stops) in
    match head stops, last stops with
    | Some start, Some destination =>
        match nearest_neighbor_loop (length remaining_stops) start
                remaining_stops [] with
        | inl e => RouteRaises e
        | inr None => RouteUnfinished
        | inr (Some (optimized_route, current_location)) =>
            Route (optimized_route ++ [(current_location, destination)])
        end
    | _, _ => RouteRaises IndexError
    end.
End MultiStop.

End RouteOptimizer.


(** ** The gateway ([src/core/gateway.py]) *)

Module TesseractsGateway.

Record t := mk {
  providers : list (string * ProviderAdapter.t);
  router : RouteOptimizer.t;
  active_jobs : gmap string Job;
  active_quotes : gmap string Quote
}.

(** [__init__]: [{provider.provider_id: provider for provider in providers}] *)
Definition init (ps : list ProviderAdapter.t) : t :=
  mk (foldl (fun d p => dict_set (ProviderAdapter.provider_id p) p d) [] ps)
     (RouteOptimizer.init ps) ∅ ∅.

Definition with_active_quotes (self : t) (qs : gmap string Quote) : t :=
  mk (providers self) (router self) (active_jobs self) qs.

Definition with_active_jobs (self : t) (js : gmap string Job) : t :=
  mk (providers self) (router self) js (active_quotes self).

(** [uuid] stands for [uuid.uuid4().hex[:8]]. *)
Definition request_movement (self : t) (now : datetime) (uuid : string)
    (request : MovementRequest) : MovementResponse * t :=
  let quotes :=
    RouteOptimizer.get_optimal_quotes (router self) now request 5 in
  let request_id := ("req_" ++ uuid)%string in
  let cache :=
    foldl (fun m quote => <[quote_id quote := quote]> m)
          (active_quotes self) quotes in
  let recommended_quote_id :=
    match quotes with
    | quote :: _ => Some (quote_id quote)
    | [] => None
    end in
  (mkMovementResponse request_id quotes recommended_quote_id,
   with_active_quotes self cache).

(** [accept_quote], lines 55-67: everything before
    [await provider.create_job(...)]. Nothing is written. *)
Definition accept_quote_lookup (self : t) (now : datetime) (quote_id : string)
  : result (Quote * ProviderAdapter.t) :=
  match active_quotes self !! quote_id with
  | None => Raise QuoteNotFound
  | Some quote =>
      if Qgt_bool now (expires_at quote) then Raise QuoteExpired
      else
        match dict_get (quote_provider_id quote) (providers self) with
        | None => Raise ProviderNotAvailable
        | Some provider => Ok (quote, provider)
        end
  end.

(** [accept_quote], lines 73-79: everything after the [await] has returned
    [job]. The job is stored first; [del self.active_quotes[quote_id]]
    raises [KeyError] when the key is gone. *)
Definition accept_quote_store (self : t) (quote_id : string) (job : Job)
  : result Job * t :=
  let self1 := with_active_jobs self (<[job_id job := job]> (active_jobs self)) in
  match active_quotes self1 !! quote_id with
  | None => (Raise KeyError, self1)
  | Some _ =>
      (Ok job, with_active_quotes self1 (delete quote_id (active_quotes self1)))
  end.

(** [accept_quote] run without interruption. *)
Definition accept_quote (self : t) (now : datetime) (quote_id : string)
    (request : MovementRequest) : result Job * t :=
  match accept_quote_lookup self now quote_id with
  | Raise e => (Raise e, self)
  | Ok (quote, provider) =>
      match ProviderAdapter.create_job provider quote_id request with
      | Raise e => (Raise e, self)
      | Ok job => accept_quote_store self quote_id job
      end
  end.

(** [self.providers.get(job.provider_id)]; a missing id is [None]. *)
Definition provider_of_job (self : t) (job : Job) : option ProviderAdapter.t :=
  match job_provider_id job with
  | Some pid => dict_get pid (providers self)
  | None => None
  end.

Definition get_job_status (self : t) (now : datetime) (job_id : string)
  : result JobUpdate * t :=
  match active_jobs self !! job_id with
  | None => (Raise JobNotFound, self)
  | Some job =>
      match provider_of_job self job with
      | None => (Raise ProviderNotAvailable, self)
      | Some provider =>
          match ProviderAdapter.get_job_status provider job_id with
          | Raise e => (Raise e, self)
          | Ok job_update =>
              (Ok job_update,
               with_active_jobs self
                 (<[job_id := set_status (update_status job_update) now job]>
                    (active_jobs self)))
          end
      end
  end.

Definition cancel_job (self : t) (now : datetime) (job_id : string)
  : result bool * t :=
  match active_jobs self !! job_id with
  | None => (Raise JobNotFound, self)
  | Some job =>
      match provider_of_job self job with
      | None => (Raise ProviderNotAvailable, self)
      | Some provider =>
          match ProviderAdapter.cancel_job provider job_id with
          | Raise e => (Raise e, self)
          | Ok true =>
              (Ok true,
               with_active_jobs self
                 (<[job_id := set_status CANCELLED now job]> (active_jobs self)))
          | Ok false => (Ok false, self)
          end
      end
  end.

(** [track_job]; [track] stands for the providers' [track_job] coroutine,
    which [ProviderAdapter.t] does not carry. An unknown provider is not an
    error here: the location is [None]. *)
Definition track_job
    (track : ProviderAdapter.t -> string -> result (option Location))
    (self : t) (job_id : string) : result (option Location) :=
  match active_jobs self !! job_id with
  | None => Raise JobNotFound
  | Some job =>
      match provider_of_job self job with
      | None => Ok None
      | Some provider => track provider job_id
      end
  end.

(** [cleanup_expired_quotes]: every entry with [current_time > expires_at]
    is deleted. *)
Definition cleanup_expired_quotes (self : t) (now : datetime) : t :=
  with_active_quotes self
    (filter (fun kv => Qgt_bool now (expires_at (snd kv)) = false)
            (active_quotes self)).

(** One element of the list [get_available_workers] returns. *)
Record WorkerView := mkWorkerView {
  view_id : string;
  view_name : string;
  view_rating : option Q;
  view_vehicle_type : option string;
  view_provider : string;
  view_distance_km : option Q
}.

Section Workers.
(** [x ** 0.5], a floating-point square root the embedding leaves open. *)
Variable sqrt_float : Q -> Q.

Definition _calculate_distance (loc1 loc2 : Location) : Q :=
  let lat_diff := Qabs (latitude loc1 - latitude loc2) in
  let lng_diff := Qabs (longitude loc1 - longitude loc2) in
  (sqrt_float (lat_diff ^ 2 + lng_diff ^ 2) * 111)%Q.

Definition worker_view (location : Location) (worker : Worker) : WorkerView :=
  {| view_id := worker_id worker;
     view_name := worker_name worker;
     view_rating := rating worker;
     view_vehicle_type := vehicle_type <$> vehicle worker;
     view_provider := worker_provider_id worker;
     view_distance_km :=
       _calculate_distance location <$> current_location worker |}.

(** [asyncio.gather(..., return_exceptions=True)] hands back one entry per
    task, a list or the exception; only the lists are kept. *)
Definition get_available_workers (self : t) (location : Location)
    (service_type : ServiceType) (radius_km : Q) : list WorkerView :=
  let worker_tasks :=
    List.filter
      (fun p => bool_decide
                  (service_type ∈ ProviderAdapter.supported_service_types p))
      (dict_values (providers self)) in
  match worker_tasks with
  | [] => []
  | _ =>
      let worker_results :=
        map (fun p => ProviderAdapter.get_available_workers p location radius_km)
            worker_tasks in
      let all_workers :=
        concat (map (fun r => match r with Ok l => l | Raise _ => [] end)
                    worker_results) in
      map (worker_view location) all_workers
  end.
End Workers.

End TesseractsGateway.

(** ** Concurrent acceptances of one quote id

    [accept_quote] is a coroutine with one suspension point, the
    [await provider.create_job(...)]. The event loop runs a coroutine without
    interruption up to that point, and again from the moment the provider has
    answered to the end. A set of concurrent calls on one quote id is
    therefore a list of tasks, each at one of three program points, and a
    schedule is a list of events, each letting one task run its next
    uninterrupted stretch. The provider is a remote, stateful service: what
    it answers to a task is part of the event. The periodic sweep
    [cleanup_expired_quotes] has no suspension point and may run between any
    two stretches. *)

Module AcceptRace.

Inductive task :=
  | Ready
  | Awaiting (quote : Quote) (provider : ProviderAdapter.t)
  | Finished (r : result Job).

Record world := mkWorld {
  gateway : TesseractsGateway.t;
  tasks : list task
}.

Inductive event :=
  | Lookup (i : nat) (now : datetime)
  | CreateRaised (i : nat) (e : exn)
  | CreateReturned (i : nat) (job : Job)
  | Sweep (now : datetime).


Definition exec_event (quote_id : string) (w : world) (ev : event)
  : option world :=
  match ev with
  | Lookup i now =>
      match tasks w !! i with
      | Some Ready =>
          let t' :=
            match TesseractsGateway.accept_quote_lookup (gateway w) now quote_id with
            | Ok (quote, provider) => Awaiting quote provider
            | Raise e => Finished (Raise e)
            end in
          Some (mkWorld (gateway w) (<[i := t']> (tasks w)))
      | _ => None
      end
  | CreateRaised i e =>
      match tasks w !! i with
      | Some (Awaiting _ _) =>
          Some (mkWorld (gateway w) (<[i := Finished (Raise e)]> (tasks w)))
      | _ => None
      end
  | CreateReturned i job =>
      match tasks w !! i with
      | Some (Awaiting _ _) =>
          let '(r, g') :=
            TesseractsGateway.accept_quote_store (gateway w) quote_id job in
          Some (mkWorld g' (<[i := Finished r]> (tasks w)))
      | _ => None
      end
  | Sweep now =>
      Some (mkWorld (TesseractsGateway.cleanup_expired_quotes (gateway w) now)
                    (tasks w))
  end.




End AcceptRace.

(** ** Sequences of gateway calls

    The calls a client (or the periodic sweep) can make on one gateway, run
    one after the other. *)

Module Session.

Inductive op :=
  | RequestMovement (now : datetime) (uuid : string) (request : MovementRequest)
  | AcceptQuote (now : datetime) (quote_id : string) (request : MovementRequest)
  | GetJobStatus (now : datetime) (job_id : string)
  | CancelJob (now : datetime) (job_id : string)
  | CleanupExpiredQuotes (now : datetime).

Definition step (g : TesseractsGateway.t) (o : op) : TesseractsGateway.t :=
  match o with
  | RequestMovement now uuid request =>
      snd (TesseractsGateway.request_movement g now uuid request)
  | AcceptQuote now quote_id request =>
      snd (TesseractsGateway.accept_quote g now quote_id request)
  | GetJobStatus now job_id =>
      snd (TesseractsGateway.get_job_status g now job_id)
  | CancelJob now job_id =>
      snd (TesseractsGateway.cancel_job g now job_id)
  | CleanupExpiredQuotes now =>
      TesseractsGateway.cleanup_expired_quotes g now
  end.

Definition run (g : TesseractsGateway.t) (ops : list op)
  : TesseractsGateway.t :=
  foldl step g ops.

Definition is_request (o : op) : bool :=
  match o with
  | RequestMovement _ _ _ => true
  | _ => false
  end.

End Session.

(** ** Predicates used in the statements *)

(** Weights under which every term of the weighted sum counts for, never
    against, a quote; the default weights are of this kind. *)
Definition weights_nonneg (ws : gmap string Q) : Prop :=
  (0 <= RouteOptimizer.weight ws "cost" /\
   0 < RouteOptimizer.weight ws "time" /\
   0 <= RouteOptimizer.weight ws "reliability" /\
   0 <= RouteOptimizer.weight ws "quality")%Q.

(** What the validation in [update_weights] aims at: the effective weights
    sum to [1.0] within [0.01]. *)
Definition weights_sum_ok (ws : gmap string Q) : Prop :=
  (Qabs (RouteOptimizer.sum_values ws - 1.0) <= 0.01)%Q.

(** A provider every fan-out call of which raises. *)
Definition always_raises (p : ProviderAdapter.t) : Prop :=
  (forall req, is_ok (ProviderAdapter.get_quote p req) = false) /\
  (forall loc r, is_ok (ProviderAdapter.get_available_workers p loc r) = false) /\
  is_ok (ProviderAdapter.health_check p) = false.

Definition keep (faulty : ProviderAdapter.t -> bool) (p : ProviderAdapter.t)
  : bool :=
  negb (faulty p).

(** The gateway with the providers marked [faulty] taken out of both the
    gateway's dictionary and the router's list. *)
Definition without (faulty : ProviderAdapter.t -> bool)
    (g : TesseractsGateway.t) : TesseractsGateway.t :=
  TesseractsGateway.mk
    (List.filter (fun kv => keep faulty (snd kv)) (TesseractsGateway.providers g))
    (RouteOptimizer.mk
       (List.filter (keep faulty)
          (RouteOptimizer.providers (TesseractsGateway.router g)))
       (RouteOptimizer.weights (TesseractsGateway.router g)))
    (TesseractsGateway.active_jobs g) (TesseractsGateway.active_quotes g).

(** The providers registered under the id [i]. *)
Definition with_id (i : string) (p : ProviderAdapter.t) : bool :=
  bool_decide (ProviderAdapter.provider_id p = i).


(** The quotes gathered from the suitable providers, lines 34-52 of
    [get_optimal_quotes]. *)
Definition gathered_quotes (self : RouteOptimizer.t)
    (request : MovementRequest) : list Quote :=
  omap id (map (fun p => RouteOptimizer._get_provider_quote p request)
               (RouteOptimizer._filter_suitable_providers self request)).

(** A quote paired with its score, as line 60 does. *)
Definition scored (ws : gmap string Q) (now : datetime)
    (request : MovementRequest) (quote : Quote) : Quote * Q :=
  (quote, RouteOptimizer._calculate_quote_score ws now quote request).







(** What the providers [ps] contribute to a request, read off their answers
    and not off the fan-outs: the quotes of those that support the service
    type, cover the area and answer [get_quote] with a quote, in the order
    of [ps]. *)
Definition offers (ps : list ProviderAdapter.t) (request : MovementRequest)
  : list Quote :=
  omap (fun p =>
          match ProviderAdapter.get_quote p request with
          | Ok (Some quote) => Some quote
          | _ => None
          end)
       (List.filter
          (fun p =>
             bool_decide
               (service_type request ∈ ProviderAdapter.supported_service_types p)
             && (bool_decide ("global" ∈ ProviderAdapter.coverage_areas p)
                 || bool_decide ("local" ∈ ProviderAdapter.coverage_areas p)))
          ps).

(** The workers that the providers of [ps] supporting [service_type] report
    near [location], in the order of [ps]. *)
Definition workers_offered (ps : list ProviderAdapter.t) (location : Location)
    (service_type : ServiceType) (radius_km : Q) : list Worker :=
  concat
    (map (fun p =>
            match ProviderAdapter.get_available_workers p location radius_km with
            | Ok workers => workers
            | Raise _ => []
            end)
         (List.filter
            (fun p => bool_decide
                        (service_type ∈ ProviderAdapter.supported_service_types p))
            ps)).

(** A sequence of [update_weights] calls, whatever each one returns. *)
Definition apply_updates (self : RouteOptimizer.t)
    (updates : list (gmap string Q)) : RouteOptimizer.t :=
  foldl (fun r u => snd (RouteOptimizer.update_weights r u)) self updates.

(** [legs] lead from [start] to [finish], each leg beginning where the
    previous one ended. *)
Fixpoint path (start : Location) (legs : list (Location * Location))
    (finish : Location) : Prop :=
  match legs with
  | [] => start = finish
  | leg :: legs' => fst leg = start /\ path (snd leg) legs' finish
  end.

(** One step of the dictionary comprehension in the gateway's [__init__]. *)
Definition register (d : list (string * ProviderAdapter.t))
    (p : ProviderAdapter.t) : list (string * ProviderAdapter.t) :=
  dict_set (ProviderAdapter.provider_id p) p d.


(** ** Concrete data used by the examples below *)

Module Examples.

Definition origin : Location := mkLocation 0 0 None.

Definition request (p : Priority) (requested : option datetime)
  : MovementRequest :=
  mkMovementRequest DELIVERY origin origin requested p.

Definition mk_job (id : string) (st : JobStatus) (pid : string) : Job :=
  mkJob id DELIVERY st origin origin None (Some pid) (Some id) 0 0.

Definition worker (id pid : string) (stars : Q) : Worker :=
  mkWorker id id (Some stars) None None true pid.

(** A provider that offers [offer], answers every [create_job] with the job
    [j], accepts every cancellation, reports every job as [reported] and
    has the workers [ws]. *)
Definition stub (pid : string) (offer : option Quote) (j : Job)
    (reported : JobStatus) (ws : list Worker) : ProviderAdapter.t :=
  ProviderAdapter.mk pid [DELIVERY] ["local"]
    (fun _ => Ok offer)
    (fun _ _ => Ok j)
    (fun id => Ok (mkJobUpdate id reported None None))
    (fun _ => Ok true)
    (fun _ _ => Ok ws)
    (Ok true).

(** A provider every call of which raises. *)
Definition broken (pid : string) : ProviderAdapter.t :=
  ProviderAdapter.mk pid [DELIVERY] ["local"]
    (fun _ => Raise (ProviderError "down"))
    (fun _ _ => Raise (ProviderError "down"))
    (fun _ => Raise (ProviderError "down"))
    (fun _ => Raise (ProviderError "down"))
    (fun _ _ => Raise (ProviderError "down"))
    (Raise (ProviderError "down")).

(** A quote of provider [pid]: pickup at second 300, delivery at second
    900, expiry at second 1200. *)
Definition quote (qid pid : string) : Quote :=
  mkQuote pid DELIVERY 20 300 900 10 None 1200 qid 0.9.

(** [update_weights({"cost": 1.0})] *)
Definition partial_update : gmap string Q := {["cost" := 1.0%Q]}.

(** An expensive, low-confidence quote with a poorly rated worker, delivery
    at minute 116. *)
Definition slow_quote : Quote :=
  mkQuote "p" DELIVERY 120 0 6960 100 (Some (worker "w" "p" 1.0)) 9000 "q" 0.1.

(** An urgent request that asks for a pickup at minute 68. *)
Definition urgent_later : MovementRequest := request URGENT (Some 4080%Q).

(** One cached quote ["q1"] of provider ["p"], no job. *)
Definition one_quote (p : ProviderAdapter.t) : TesseractsGateway.t :=
  TesseractsGateway.mk [("p", p)] (RouteOptimizer.init [p])
    ∅ {["q1" := quote "q1" "p"]}.

(** One cached quote and one registered job ["uber_None"], already
    completed; the provider answers [create_job] with another job of the
    same id. *)
Definition colliding : TesseractsGateway.t :=
  let p := stub "uber" None (mk_job "uber_None" ASSIGNED "uber") ASSIGNED [] in
  TesseractsGateway.mk [("uber", p)] (RouteOptimizer.init [p])
    {["uber_None" := mk_job "uber_None" COMPLETED "uber"]}
    {["q2" := quote "q2" "uber"]}.

(** One registered job ["j1"], completed; its provider accepts every
    cancellation and reports the job as pending. *)
Definition completed : TesseractsGateway.t :=
  let p := stub "p" None (mk_job "j1" ASSIGNED "p") PENDING [] in
  TesseractsGateway.mk [("p", p)] (RouteOptimizer.init [p])
    {["j1" := mk_job "j1" COMPLETED "p"]} ∅.


(** The gateway the two calls race on, and the world they leave behind:
    the first call has returned its job, the second has failed on the
    [del], both jobs are registered and the quote is gone. *)
Definition racing : TesseractsGateway.t :=
  one_quote (stub "p" None (mk_job "j" ASSIGNED "p") ASSIGNED []).


(** Three providers, the second of which raises on every call. *)
Definition fleet : list ProviderAdapter.t :=
  [stub "a" (Some (quote "qa" "a")) (mk_job "ja" ASSIGNED "a") ASSIGNED
        [worker "wa" "a" 4.5];
   broken "bad";
   stub "c" (Some (quote "qc" "c")) (mk_job "jc" ASSIGNED "c") ASSIGNED
        [worker "wc" "c" 3.9]].

Definition is_bad (p : ProviderAdapter.t) : bool :=
  bool_decide (ProviderAdapter.provider_id p = "bad").

(** A request no provider of [fleet] supports. *)
Definition freight_request : MovementRequest :=
  mkMovementRequest FREIGHT origin origin None NORMAL.

Definition stop (lat lng : Q) : Location := mkLocation lat lng None.

(** Four stops; of the two intermediate ones the second is the nearer to
    the first stop. *)
Definition tour : list Location :=
  [stop 0 0; stop 5 5; stop 1 1; stop 9 9].

(** Both calls of the race suspended in [create_job]. *)
Definition both_awaiting : AcceptRace.world :=
  AcceptRace.mkWorld racing
    [AcceptRace.Awaiting (quote "q1" "p")
       (stub "p" None (mk_job "j" ASSIGNED "p") ASSIGNED []);
     AcceptRace.Awaiting (quote "q1" "p")
       (stub "p" None (mk_job "j" ASSIGNED "p") ASSIGNED [])].




(** Two providers registered under one id, one of which raises on every
    call, in both orders. *)
Definition healthy_a : ProviderAdapter.t :=
  stub "a" (Some (quote "qa" "a")) (mk_job "ja" ASSIGNED "a") ASSIGNED
       [worker "wa" "a" 4.5].

Definition broken_first : list ProviderAdapter.t := [broken "a"; healthy_a].

Definition broken_last : list ProviderAdapter.t := [healthy_a; broken "a"].

End Examples.

(** * Properties *)

(** ** Arithmetic on rationals *)

Lemma Qle_bool_false a b : Qle_bool a b = false <-> (b < a)%Q.
Proof.
  split.
  - intros E. apply Qnot_le_lt. intros H. apply Qle_bool_iff in H. congruence.
  - intros H. destruct (Qle_bool a b) eqn:E; [|done].
    apply Qle_bool_iff in E. exfalso; lra.
Qed.

Lemma Qgt_bool_true a b : Qgt_bool a b = true <-> (b < a)%Q.
Proof. unfold Qgt_bool. rewrite negb_true_iff. apply Qle_bool_false. Qed.

Lemma Qgt_bool_false a b : Qgt_bool a b = false <-> (a <= b)%Q.
Proof. unfold Qgt_bool. rewrite negb_false_iff. apply Qle_bool_iff. Qed.

(** Case split on every [Qmax] of the goal. *)
Ltac qmax_cases :=
  repeat match goal with
  | |- context [Qmax ?a ?b] =>
      let H := fresh "Hmax" in
      let m := fresh "m" in
      destruct (Q.max_spec a b) as [[? H] | [? H]];
      set (m := Qmax a b) in *; clearbody m
  end.

(** Name a quotient [a / b] by a constant [b] and keep [b * (a / b) == a]. *)
Ltac abstract_div a b :=
  let x := fresh "x" in
  let Hx := fresh "Hx" in
  assert (Hx : (b * (a / b) == a)%Q) by (field; discriminate);
  set (x := (a / b)%Q) in *; clearbody x.

Ltac qdiv_linear :=
  repeat match goal with
  | |- context [(?a / ?b)%Q] => abstract_div a b
  | H : context [(?a / ?b)%Q] |- _ => abstract_div a b
  end.

Ltac qsolve := cbv zeta; qmax_cases; qdiv_linear; lra.

(** ** The four signals *)

Section Scoring.
Import RouteOptimizer.

Lemma cost_score_range cost :
  (0.1 <= _normalize_cost_score cost /\ _normalize_cost_score cost <= 1)%Q.
Proof.
  unfold _normalize_cost_score.
  destruct (Qle_bool cost 5.00) eqn:Hmin; [lra|].
  destruct (Qle_bool 100.00 cost) eqn:Hmax; [lra|].
  apply Qle_bool_false in Hmin, Hmax. qsolve.
Qed.

Lemma quality_score_range q :
  Quote_valid q ->
  (0 < _calculate_quality_score q /\ _calculate_quality_score q <= 1)%Q.
Proof.
  intros [_ Hw]. unfold _calculate_quality_score.
  destruct (worker_info q) as [w|]; [|lra].
  unfold Worker_valid in Hw.
  destruct (rating w) as [r|]; [|lra].
  destruct (Qeq_bool r 0) eqn:E; [lra|].
  apply Qeq_bool_neq in E.
  assert (0 < r)%Q.
  { destruct Hw as [H0 _]. apply Qle_lteq in H0 as [H0|H0]; [done|].
    exfalso. apply E. by symmetry. }
  qsolve.
Qed.

Lemma time_score_lower now pickup delivery requested :
  (0.05 <= _normalize_time_score now pickup delivery requested)%Q.
Proof.
  unfold _normalize_time_score, total_seconds.
  destruct requested as [r|].
  - pose proof (Qabs_nonneg ((pickup - r) / 60)).
    set (a := Qabs _) in *; clearbody a. qsolve.
  - qsolve.
Qed.

(** The time score stays below [1] as long as the delivery is not before the
    pickup and, when no pickup time was requested, the pickup is not before
    the clock. *)
Lemma time_score_upper now pickup delivery requested :
  (pickup <= delivery)%Q ->
  (is_Some requested \/ now <= pickup)%Q ->
  (_normalize_time_score now pickup delivery requested <= 1)%Q.
Proof.
  unfold _normalize_time_score, total_seconds.
  intros Hd Hp.
  destruct requested as [r|].
  - pose proof (Qabs_nonneg ((pickup - r) / 60)).
    set (a := Qabs _) in *; clearbody a. qsolve.
  - destruct Hp as [[? ?]|Hp]; [done|]. qsolve.
Qed.

(** C6: a cost at or below [5.00] scores [1.0], a cost at or above [100.00]
    scores [0.1], and a cost strictly between scores the inverted linear
    interpolation [1 - (cost - 5) / (100 - 5)] floored at [0.1], which is
    never zero. *)
Theorem cost_score_normalization (cost : Q) :
  ((cost <= 5 -> _normalize_cost_score cost == 1) /\
   (100 <= cost -> _normalize_cost_score cost == 0.1) /\
   (5 < cost /\ cost < 100 ->
      _normalize_cost_score cost == Qmax 0.1 (1 - (cost - 5) / (100 - 5)) /\
      0.1 <= _normalize_cost_score cost /\
      0 < _normalize_cost_score cost))%Q.
Proof.
  pose proof (cost_score_range cost) as [Hfloor _].
  revert Hfloor. unfold _normalize_cost_score.
  destruct (Qle_bool cost 5.00) eqn:Hmin.
  { apply Qle_bool_iff in Hmin.
    repeat split; intros; try reflexivity; exfalso; lra. }
  apply Qle_bool_false in Hmin.
  destruct (Qle_bool 100.00 cost) eqn:Hmax.
  { apply Qle_bool_iff in Hmax.
    repeat split; intros; try reflexivity; exfalso; lra. }
  apply Qle_bool_false in Hmax. cbv zeta. intros Hfloor.
  split; [intros; exfalso; lra|].
  split; [intros; exfalso; lra|].
  intros _. split; [|split; [exact Hfloor | lra]].
  apply Q.max_compat; [reflexivity | field; discriminate].
Qed.

Lemma cost_score_normalization_witness :
  ((5 <= 5 /\ _normalize_cost_score 5 == 1) /\
   (100 <= 250 /\ _normalize_cost_score 250 == 0.1) /\
   ((5 < 43 /\ 43 < 100) /\ _normalize_cost_score 43 == 0.6) /\
   ((5 < 99 /\ 99 < 100) /\ _normalize_cost_score 99 == 0.1))%Q.
Proof.
  assert (H5 : (5 <= 5)%Q) by (vm_compute; discriminate).
  assert (H250 : (100 <= 250)%Q) by (vm_compute; discriminate).
  assert (H43 : (5 < 43 /\ 43 < 100)%Q) by (split; reflexivity).
  assert (H99 : (5 < 99 /\ 99 < 100)%Q) by (split; reflexivity).
  split; [split; [exact H5|]|split; [split; [exact H250|]|split; split]].
  - exact (proj1 (cost_score_normalization 5) H5).
  - exact (proj1 (proj2 (cost_score_normalization 250)) H250).
  - exact H43.
  - rewrite (proj1 (proj2 (proj2 (cost_score_normalization 43)) H43)).
    reflexivity.
  - exact H99.
  - rewrite (proj1 (proj2 (proj2 (cost_score_normalization 99)) H99)).
    reflexivity.
Defined.

End Scoring.

(** ** Urgent priority *)

Section Urgent.
Import RouteOptimizer.

Lemma urgent_adjustment_table now q :
  let delay := (total_seconds (estimated_pickup_time q) now / 60)%Q in
  ((delay <= 10 -> _get_priority_adjustment now URGENT q == 1.3) /\
   (10 < delay /\ delay <= 20 -> _get_priority_adjustment now URGENT q == 1.1) /\
   (20 < delay -> _get_priority_adjustment now URGENT q == 0.7))%Q.
Proof.
  intros delay. unfold _get_priority_adjustment. fold delay.
  destruct (Qle_bool delay 10) eqn:H10.
  { apply Qle_bool_iff in H10.
    repeat split; intros; try reflexivity; exfalso; lra. }
  apply Qle_bool_false in H10.
  destruct (Qle_bool delay 20) eqn:H20.
  { apply Qle_bool_iff in H20.
    repeat split; intros; try reflexivity; exfalso; lra. }
  apply Qle_bool_false in H20.
  repeat split; intros; try reflexivity; exfalso; lra.
Qed.

Lemma default_weights_nonneg : weights_nonneg default_weights.
Proof. vm_compute. repeat split; discriminate. Qed.

Lemma urgent_scores ws now q req :
  priority req = URGENT ->
  requested_pickup_time req = None ->
  Quote_valid q ->
  weights_nonneg ws ->
  (_calculate_quote_score ws now (with_pickup_time (now + 25 * 60) q) req
   < _calculate_quote_score ws now (with_pickup_time (now + 8 * 60) q) req)%Q.
Proof.
  intros Hp Hr Hv (Hc & Ht & Hrel & Hq).
  pose proof (quality_score_range q Hv) as [Hq0 _].
  destruct Hv as [[Hconf _] _].
  pose proof (cost_score_range (estimated_cost q)) as [Hc0 _].
  unfold _calculate_quote_score. rewrite Hp, Hr.
  change (_calculate_quality_score (with_pickup_time _ q))
    with (_calculate_quality_score q).
  cbn [with_pickup_time estimated_cost estimated_pickup_time
       estimated_delivery_time confidence_score].
  set (D := estimated_delivery_time q).
  set (c := _normalize_cost_score (estimated_cost q)) in *.
  set (ql := _calculate_quality_score q) in *.
  set (r := confidence_score q) in *.
  set (wc := weight ws "cost") in *. set (wt := weight ws "time") in *.
  set (wr := weight ws "reliability") in *.
  set (wq := weight ws "quality") in *.
  assert (Ha : _get_priority_adjustment now URGENT
                 (with_pickup_time (now + 8 * 60)%Q q) == 1.3).
  { apply urgent_adjustment_table. cbn. unfold total_seconds. qsolve. }
  assert (Hb : _get_priority_adjustment now URGENT
                 (with_pickup_time (now + 25 * 60)%Q q) == 0.7).
  { apply urgent_adjustment_table. cbn. unfold total_seconds. qsolve. }
  cbv zeta. rewrite Ha, Hb.
  set (ta := _normalize_time_score now (now + 8 * 60)%Q D None).
  set (tb := _normalize_time_score now (now + 25 * 60)%Q D None).
  assert (Hlt : (0.05 <= tb /\ tb + 0.07 <= ta)%Q).
  { split; [apply time_score_lower|].
    unfold ta, tb, _normalize_time_score, total_seconds. qsolve. }
  clearbody ta tb c ql r wc wt wr wq.
  destruct Hlt as [Hl1 Hl2].
  assert (0 <= wc * c)%Q by (apply Qmult_le_0_compat; lra).
  assert (0 <= wr * r)%Q by (apply Qmult_le_0_compat; lra).
  assert (0 <= wq * ql)%Q by (apply Qmult_le_0_compat; lra).
  assert (0 < wt * tb)%Q by (apply Qmult_lt_0_compat; lra).
  assert (wt * tb < wt * ta)%Q by (apply Qmult_lt_l; lra).
  lra.
Qed.

Lemma rank_pair ws now req n (hi lo : Quote) :
  (_calculate_quote_score ws now lo req
   < _calculate_quote_score ws now hi req)%Q ->
  rank_quotes ws now req (S (S n)) [lo; hi] = [hi; lo] /\
  rank_quotes ws now req (S (S n)) [hi; lo] = [hi; lo].
Proof.
  intros Hlt. unfold rank_quotes, sort_desc.
  cbn [map foldr insert_desc snd].
  assert (E1 : Qgt_bool (_calculate_quote_score ws now hi req)
                 (_calculate_quote_score ws now lo req) = true)
    by by apply Qgt_bool_true.
  assert (E2 : Qgt_bool (_calculate_quote_score ws now lo req)
                 (_calculate_quote_score ws now hi req) = false)
    by (apply Qgt_bool_false; lra).
  split.
  - cbn [insert_desc snd]. rewrite E1. by destruct n.
  - cbn [insert_desc snd]. rewrite E2. by destruct n.
Qed.

(** C7, the claim as stated fails: under an urgent request that asks for a
    pickup at minute 68, of two quotes that differ in their pickup time only
    (minute 8 and minute 25) the 25-minute quote gets the higher final score
    and is ranked first. *)
Lemma urgent_requested_time_prefers_later_pickup :
  let qa := with_pickup_time (8 * 60) Examples.slow_quote in
  let qb := with_pickup_time (25 * 60) Examples.slow_quote in
  (_get_priority_adjustment 0 URGENT qa == 1.3 /\
   _get_priority_adjustment 0 URGENT qb == 0.7 /\
   _calculate_quote_score default_weights 0 qa Examples.urgent_later == 0.117 /\
   _calculate_quote_score default_weights 0 qb Examples.urgent_later == 0.1225 /\
   ~ (_calculate_quote_score default_weights 0 qb Examples.urgent_later
      < _calculate_quote_score default_weights 0 qa Examples.urgent_later))%Q /\
  rank_quotes default_weights 0 Examples.urgent_later 5 [qa; qb] = [qb; qa].
Proof.
  cbv zeta.
  split; [|vm_compute; reflexivity].
  split; [vm_compute; reflexivity|].
  split; [vm_compute; reflexivity|].
  split; [vm_compute; reflexivity|].
  split; [vm_compute; reflexivity|].
  vm_compute. discriminate.
Qed.

(** C7, amended: under urgent priority the adjustment is [1.3] for a pickup
    delay of at most 10 minutes, [1.1] for at most 20 minutes and [0.7]
    beyond; and when the request names no pickup time and no weight is
    negative (the time weight positive), of two valid quotes that differ in
    their pickup time only, 8 against 25 minutes after the clock, the
    8-minute quote has the strictly higher final score and is ranked
    first. *)
Theorem urgent_fast_pickup_ranks_first ws now q req n :
  priority req = URGENT ->
  requested_pickup_time req = None ->
  Quote_valid q ->
  weights_nonneg ws ->
  let qa := with_pickup_time (now + 8 * 60) q in
  let qb := with_pickup_time (now + 25 * 60) q in
  (forall t q',
     let delay := (total_seconds (estimated_pickup_time q') t / 60) in
     (delay <= 10 -> _get_priority_adjustment t URGENT q' == 1.3) /\
     (10 < delay /\ delay <= 20 -> _get_priority_adjustment t URGENT q' == 1.1) /\
     (20 < delay -> _get_priority_adjustment t URGENT q' == 0.7))%Q /\
  (_calculate_quote_score ws now qb req
   < _calculate_quote_score ws now qa req)%Q /\
  rank_quotes ws now req (S (S n)) [qb; qa] = [qa; qb] /\
  rank_quotes ws now req (S (S n)) [qa; qb] = [qa; qb].
Proof.
  intros Hp Hr Hv Hw qa qb.
  split; [intros t q'; apply urgent_adjustment_table|].
  pose proof (urgent_scores ws now q req Hp Hr Hv Hw) as Hlt.
  split; [exact Hlt|]. by apply rank_pair.
Qed.

Lemma urgent_fast_pickup_ranks_first_witness :
  let q := Examples.quote "q" "p" in
  let req := Examples.request URGENT None in
  let qa := with_pickup_time (1000 + 8 * 60) q in
  let qb := with_pickup_time (1000 + 25 * 60) q in
  (_calculate_quote_score default_weights 1000 qb req
   < _calculate_quote_score default_weights 1000 qa req)%Q /\
  rank_quotes default_weights 1000 req 5 [qb; qa] = [qa; qb].
Proof.
  assert (Hv : Quote_valid (Examples.quote "q" "p")).
  { vm_compute. repeat split; discriminate. }
  pose proof (urgent_fast_pickup_ranks_first default_weights 1000
                (Examples.quote "q" "p") (Examples.request URGENT None) 3
                eq_refl eq_refl Hv default_weights_nonneg) as H.
  destruct H as (_ & Hscore & Hrank & _). split; [exact Hscore | exact Hrank].
Defined.

End Urgent.

(** ** Range of the time score and weight configuration *)

Section Configuration.
Import RouteOptimizer.

(** C8, the code at the failing input: a quote whose pickup lies 30 minutes
    before the clock and whose trip takes 10 minutes, under a request that
    names no pickup time, gets the time score [29/24], above [1]. The other
    three signals are within [[0,1]] ([cost_score_range],
    [quality_score_range], [Quote_valid]), and so is the time score when
    no timestamp runs backwards ([time_score_lower], [time_score_upper]). *)
Theorem time_score_above_one :
  (_normalize_time_score 1800 0 600 None == 29 # 24 /\
   1 < _normalize_time_score 1800 0 600 None)%Q.
Proof. split; vm_compute; reflexivity. Qed.

Lemma default_weights_sum : weights_sum_ok default_weights.
Proof. vm_compute. discriminate. Qed.



(** The keys the scorer reads never disappear. *)
Lemma weights_keys_present self new_weights k :
  is_Some (weights self !! k) ->
  is_Some (weights (snd (update_weights self new_weights)) !! k).
Proof.
  unfold update_weights. destruct (Qgt_bool _ _); cbn; [done|].
  intros H. apply lookup_union_is_Some. by right.
Qed.

(** C2, the code at the failing input: from the default weights,
    [update_weights({"cost": 1.0})] is accepted, since the values of the
    update sum to [1.0]; the update is merged into the configured weights,
    which then read cost 1.0, time 0.4, reliability 0.2, quality 0.1 and sum
    to [1.7]. *)
Theorem partial_update_breaks_weight_sum :
  let r := init [] in
  weights_sum_ok (weights r) /\
  fst (update_weights r Examples.partial_update) = Ok () /\
  weights (snd (update_weights r Examples.partial_update))
    = <["cost" := 1.0%Q]> default_weights /\
  (sum_values (weights (snd (update_weights r Examples.partial_update)))
   == 1.7)%Q /\
  ~ weights_sum_ok (weights (snd (update_weights r Examples.partial_update))).
Proof.
  cbv zeta. split; [exact default_weights_sum|].
  split; [vm_compute; reflexivity|].
  split; [vm_compute; reflexivity|].
  split; [vm_compute; reflexivity|].
  vm_compute. intros H. by apply H.
Qed.

End Configuration.

(** ** Accepting a quote *)

Section Acceptance.
Import TesseractsGateway.

Lemma lookup_cleanup g now k :
  active_quotes (cleanup_expired_quotes g now) !! k =
  match active_quotes g !! k with
  | Some q => if Qgt_bool now (expires_at q) then None else Some q
  | None => None
  end.
Proof.
  unfold cleanup_expired_quotes; cbn [active_quotes with_active_quotes].
  destruct (active_quotes g !! k) as [q|] eqn:Hk.
  - destruct (Qgt_bool now (expires_at q)) eqn:E.
    + apply map_lookup_filter_None. right. intros q' Hq'. cbn. congruence.
    + apply map_lookup_filter_Some. split; [done|]. cbn. done.
  - apply map_lookup_filter_None. by left.
Qed.

Lemma accept_quote_lookup_expired g now qid quote :
  active_quotes g !! qid = Some quote ->
  (expires_at quote < now)%Q ->
  accept_quote_lookup g now qid = Raise QuoteExpired.
Proof.
  intros Hq Hexp. unfold accept_quote_lookup. rewrite Hq.
  assert (E : Qgt_bool now (expires_at quote) = true)
    by by apply Qgt_bool_true.
  by rewrite E.
Qed.

Lemma accept_quote_lookup_Ok g now qid quote provider :
  accept_quote_lookup g now qid = Ok (quote, provider) ->
  active_quotes g !! qid = Some quote /\
  (now <= expires_at quote)%Q /\
  dict_get (quote_provider_id quote) (providers g) = Some provider.
Proof.
  unfold accept_quote_lookup.
  destruct (active_quotes g !! qid) as [q|] eqn:Hq; [|done].
  destruct (Qgt_bool now (expires_at q)) eqn:E; [done|].
  apply Qgt_bool_false in E.
  destruct (dict_get _ _) as [p|] eqn:Hp; [|done].
  intros [= <- <-]. split; [reflexivity|]. split; [exact E | exact Hp].
Qed.

(** C9: an acceptance that fails before [create_job] is called, on an
    unknown quote id, on an expired quote or on an unknown provider id,
    leaves the gateway as it was. The expired quote is still cached after the
    failure, a retry at any later time fails with the same [QuoteExpired],
    and the sweep is what removes it. *)
Theorem accept_quote_error_atomicity (g : t) now qid req :
  (active_quotes g !! qid = None ->
     accept_quote g now qid req = (Raise QuoteNotFound, g)) /\
  (forall quote, active_quotes g !! qid = Some quote ->
     (expires_at quote < now)%Q ->
     accept_quote g now qid req = (Raise QuoteExpired, g) /\
     active_quotes (snd (accept_quote g now qid req)) !! qid = Some quote /\
     (forall later, (now <= later)%Q ->
        accept_quote (snd (accept_quote g now qid req)) later qid req
        = (Raise QuoteExpired, g)) /\
     active_quotes (cleanup_expired_quotes g now) !! qid = None) /\
  (forall quote, active_quotes g !! qid = Some quote ->
     (now <= expires_at quote)%Q ->
     dict_get (quote_provider_id quote) (providers g) = None ->
     accept_quote g now qid req = (Raise ProviderNotAvailable, g)).
Proof.
  split; [|split].
  - intros Hq. unfold accept_quote, accept_quote_lookup. by rewrite Hq.
  - intros quote Hq Hexp.
    assert (Hfail : forall later, (now <= later)%Q ->
              accept_quote g later qid req = (Raise QuoteExpired, g)).
    { intros later Hl. unfold accept_quote.
      rewrite (accept_quote_lookup_expired g later qid quote Hq); [done|lra]. }
    rewrite (Hfail now) by lra. cbn [snd].
    split; [done|]. split; [done|]. split; [exact Hfail|].
    rewrite lookup_cleanup, Hq.
    assert (E : Qgt_bool now (expires_at quote) = true)
      by by apply Qgt_bool_true.
    by rewrite E.
  - intros quote Hq Hexp Hp. unfold accept_quote, accept_quote_lookup.
    rewrite Hq.
    assert (E : Qgt_bool now (expires_at quote) = false)
      by by apply Qgt_bool_false.
    by rewrite E, Hp.
Qed.

Lemma accept_quote_error_atomicity_witness :
  let g := Examples.one_quote (Examples.broken "p") in
  let orphan := with_active_quotes g {["q9" := Examples.quote "q9" "gone"]} in
  (active_quotes g !! "missing" = None /\
   accept_quote g 100 "missing" (Examples.request NORMAL None)
     = (Raise QuoteNotFound, g)) /\
  ((expires_at (Examples.quote "q1" "p") < 1500)%Q /\
   accept_quote g 1500 "q1" (Examples.request NORMAL None)
     = (Raise QuoteExpired, g) /\
   accept_quote
     (snd (accept_quote g 1500 "q1" (Examples.request NORMAL None)))
     1501 "q1" (Examples.request NORMAL None)
     = (Raise QuoteExpired, g)) /\
  (dict_get "gone" (providers orphan) = None /\
   accept_quote orphan 100 "q9" (Examples.request NORMAL None)
     = (Raise ProviderNotAvailable, orphan)).
Proof.
  intros g orphan.
  assert (Hmissing : active_quotes g !! "missing" = None)
    by (vm_compute; reflexivity).
  assert (Hq1 : active_quotes g !! "q1" = Some (Examples.quote "q1" "p"))
    by (vm_compute; reflexivity).
  assert (Hexp : (expires_at (Examples.quote "q1" "p") < 1500)%Q)
    by reflexivity.
  assert (Hq9 : active_quotes orphan !! "q9" = Some (Examples.quote "q9" "gone"))
    by (vm_compute; reflexivity).
  assert (Hlive : (100 <= expires_at (Examples.quote "q9" "gone"))%Q)
    by (vm_compute; discriminate).
  assert (Hgone : dict_get (quote_provider_id (Examples.quote "q9" "gone"))
                    (providers orphan) = None)
    by reflexivity.
  pose proof (accept_quote_error_atomicity g 100 "missing"
                (Examples.request NORMAL None)) as (H1 & _ & _).
  pose proof (accept_quote_error_atomicity g 1500 "q1"
                (Examples.request NORMAL None)) as (_ & H2 & _).
  pose proof (accept_quote_error_atomicity orphan 100 "q9"
                (Examples.request NORMAL None)) as (_ & _ & H3).
  destruct (H2 _ Hq1 Hexp) as (H2a & _ & H2c & _).
  assert (Hlater : (1500 <= 1501)%Q) by (vm_compute; discriminate).
  split; [split; [exact Hmissing | exact (H1 Hmissing)]|].
  split; [split; [exact Hexp | split; [exact H2a | exact (H2c 1501%Q Hlater)]]|].
  split; [exact Hgone | exact (H3 _ Hq9 Hlive Hgone)].
Defined.

(** C3, the claim as stated fails: the provider's [create_job] raises, and
    the quote is still in the cache afterwards; the gateway is unchanged and
    a retry gets past the cache again, to the same provider error, not to
    [QuoteNotFound]. *)
Lemma failed_create_job_keeps_quote :
  let g := Examples.one_quote (Examples.broken "p") in
  let req := Examples.request NORMAL None in
  accept_quote g 100 "q1" req = (Raise (ProviderError "down"), g) /\
  active_quotes (snd (accept_quote g 100 "q1" req)) !! "q1"
    = Some (Examples.quote "q1" "p") /\
  fst (accept_quote (snd (accept_quote g 100 "q1" req)) 100 "q1" req)
    = Raise (ProviderError "down").
Proof.
  cbv zeta. split; [vm_compute; reflexivity|].
  split; vm_compute; reflexivity.
Qed.

(** C3, amended: once the cached quote has been found, present and
    unexpired, and its provider resolved, a [create_job] that raises makes
    [accept_quote] fail with that error and leaves the gateway unchanged:
    the quote is not consumed, it is still cached, and a retry on the same id
    finds it again. *)
Theorem accept_quote_create_job_failure (g : t) now qid req quote provider e :
  accept_quote_lookup g now qid = Ok (quote, provider) ->
  ProviderAdapter.create_job provider qid req = Raise e ->
  accept_quote g now qid req = (Raise e, g) /\
  active_quotes (snd (accept_quote g now qid req)) !! qid = Some quote /\
  accept_quote_lookup (snd (accept_quote g now qid req)) now qid
    = Ok (quote, provider).
Proof.
  intros Hl Hc. unfold accept_quote. rewrite Hl, Hc. cbn [snd].
  split; [done|]. split; [|done].
  by apply accept_quote_lookup_Ok in Hl as (? & _).
Qed.

Lemma accept_quote_create_job_failure_witness :
  let g := Examples.one_quote (Examples.broken "p") in
  let req := Examples.request NORMAL None in
  accept_quote g 100 "q1" req = (Raise (ProviderError "down"), g) /\
  active_quotes (snd (accept_quote g 100 "q1" req)) !! "q1"
    = Some (Examples.quote "q1" "p").
Proof.
  intros g req.
  assert (Hl : accept_quote_lookup g 100 "q1"
               = Ok (Examples.quote "q1" "p", Examples.broken "p"))
    by (vm_compute; reflexivity).
  assert (Hc : ProviderAdapter.create_job (Examples.broken "p") "q1" req
               = Raise (ProviderError "down"))
    by reflexivity.
  destruct (accept_quote_create_job_failure g 100 "q1" req _ _ _ Hl Hc)
    as (H1 & H2 & _).
  split; [exact H1 | exact H2].
Defined.

(** C10, the claim as stated fails: the registry holds a completed job under
    the id the provider gives to the new job; the acceptance succeeds and the
    previously registered job is replaced. *)
Lemma accepted_job_replaces_registered_job :
  let g := Examples.colliding in
  let req := Examples.request NORMAL None in
  active_jobs g !! "uber_None"
    = Some (Examples.mk_job "uber_None" COMPLETED "uber") /\
  fst (accept_quote g 100 "q2" req)
    = Ok (Examples.mk_job "uber_None" ASSIGNED "uber") /\
  active_jobs (snd (accept_quote g 100 "q2" req)) !! "uber_None"
    = Some (Examples.mk_job "uber_None" ASSIGNED "uber") /\
  active_jobs (snd (accept_quote g 100 "q2" req)) !! "uber_None"
    <> active_jobs g !! "uber_None".
Proof.
  cbv zeta. split; [vm_compute; reflexivity|].
  split; [vm_compute; reflexivity|].
  split; [vm_compute; reflexivity|].
  vm_compute. discriminate.
Qed.

(** C10, amended: a successful [accept_quote] removes the accepted quote id,
    and no other entry, from the quote cache, and writes the returned job
    under its provider-given id into the job registry; every other cached
    quote and every job registered under another id is unchanged, and so
    are the providers and the router. *)
Theorem accept_quote_frame (g g' : t) now qid req job :
  accept_quote g now qid req = (Ok job, g') ->
  is_Some (active_quotes g !! qid) /\
  active_quotes g' = delete qid (active_quotes g) /\
  active_jobs g' = <[job_id job := job]> (active_jobs g) /\
  providers g' = providers g /\ router g' = router g /\
  active_quotes g' !! qid = None /\
  (forall k, k <> qid -> active_quotes g' !! k = active_quotes g !! k) /\
  active_jobs g' !! job_id job = Some job /\
  (forall k, k <> job_id job -> active_jobs g' !! k = active_jobs g !! k).
Proof.
  unfold accept_quote, accept_quote_lookup, accept_quote_store.
  destruct (active_quotes g !! qid) as [q|] eqn:Hq; [|done].
  destruct (Qgt_bool now (expires_at q)); [done|].
  destruct (dict_get _ _) as [p|]; [|done].
  destruct (ProviderAdapter.create_job p qid req) as [j|]; [|done].
  cbn [active_quotes with_active_jobs]. rewrite Hq. intros [= <- <-].
  cbn [active_quotes active_jobs providers router with_active_quotes
       with_active_jobs].
  split; [eauto|]. repeat split.
  - apply lookup_delete_eq.
  - intros k Hk. by apply lookup_delete_ne.
  - apply lookup_insert_eq.
  - intros k Hk. by apply lookup_insert_ne.
Qed.

Lemma accept_quote_frame_witness :
  let g := Examples.colliding in
  let req := Examples.request NORMAL None in
  let g' := snd (accept_quote g 100 "q2" req) in
  accept_quote g 100 "q2" req
    = (Ok (Examples.mk_job "uber_None" ASSIGNED "uber"), g') /\
  active_quotes g' !! "q2" = None /\
  active_jobs g' !! "uber_None"
    = Some (Examples.mk_job "uber_None" ASSIGNED "uber").
Proof.
  intros g req g'.
  assert (H : accept_quote g 100 "q2" req
              = (Ok (Examples.mk_job "uber_None" ASSIGNED "uber"), g'))
    by (vm_compute; reflexivity).
  destruct (accept_quote_frame g g' 100 "q2" req _ H)
    as (_ & _ & _ & _ & _ & Hq & _ & Hj & _).
  split; [exact H|]. split; [exact Hq | exact Hj].
Defined.

End Acceptance.

(** ** The job registry as a mirror of the provider *)

Section Registry.
Import TesseractsGateway.

(** C4, the claim as stated fails: a job registered as completed becomes
    cancelled when the provider accepts the cancellation, and becomes
    pending when the provider reports it so. *)
Lemma terminal_status_is_overwritten :
  let g := Examples.completed in
  status <$> (active_jobs g !! "j1") = Some COMPLETED /\
  fst (cancel_job g 10 "j1") = Ok true /\
  status <$> (active_jobs (snd (cancel_job g 10 "j1")) !! "j1")
    = Some CANCELLED /\
  status <$> (active_jobs (snd (get_job_status g 10 "j1")) !! "j1")
    = Some PENDING.
Proof.
  cbv zeta. split; [vm_compute; reflexivity|].
  split; [vm_compute; reflexivity|].
  split; vm_compute; reflexivity.
Qed.

(** C4, amended: the registry mirrors the provider and has no guard on
    terminal states. For a registered job whose provider is known, whatever
    its status: after [get_job_status] the status is the one the provider
    reported; after a [cancel_job] the provider accepted it is [CANCELLED];
    the gateway is unchanged when the provider call raises or the
    cancellation is refused; and no other job is touched. *)
Theorem job_status_mirrors_provider (g : t) now jid job provider :
  active_jobs g !! jid = Some job ->
  provider_of_job g job = Some provider ->
  (forall upd, ProviderAdapter.get_job_status provider jid = Ok upd ->
     active_jobs (snd (get_job_status g now jid)) !! jid
       = Some (set_status (update_status upd) now job)) /\
  (forall e, ProviderAdapter.get_job_status provider jid = Raise e ->
     snd (get_job_status g now jid) = g) /\
  (ProviderAdapter.cancel_job provider jid = Ok true ->
     active_jobs (snd (cancel_job g now jid)) !! jid
       = Some (set_status CANCELLED now job)) /\
  (ProviderAdapter.cancel_job provider jid = Ok false ->
     snd (cancel_job g now jid) = g) /\
  (forall e, ProviderAdapter.cancel_job provider jid = Raise e ->
     snd (cancel_job g now jid) = g) /\
  (forall k, k <> jid ->
     active_jobs (snd (get_job_status g now jid)) !! k = active_jobs g !! k /\
     active_jobs (snd (cancel_job g now jid)) !! k = active_jobs g !! k).
Proof.
  intros Hj Hp. unfold get_job_status, cancel_job. rewrite Hj, Hp.
  repeat split.
  - intros upd ->. cbn. apply lookup_insert_eq.
  - by intros e ->.
  - intros ->. cbn. apply lookup_insert_eq.
  - by intros ->.
  - by intros e ->.
  - destruct (ProviderAdapter.get_job_status provider jid); cbn; [|done].
    by apply lookup_insert_ne.
  - destruct (ProviderAdapter.cancel_job provider jid) as [[|]|]; cbn;
      try done.
    by apply lookup_insert_ne.
Qed.

Lemma job_status_mirrors_provider_witness :
  let g := Examples.completed in
  let job := Examples.mk_job "j1" COMPLETED "p" in
  active_jobs (snd (get_job_status g 10 "j1")) !! "j1"
    = Some (set_status PENDING 10 job) /\
  active_jobs (snd (cancel_job g 10 "j1")) !! "j1"
    = Some (set_status CANCELLED 10 job).
Proof.
  intros g job.
  assert (Hj : active_jobs g !! "j1" = Some job) by (vm_compute; reflexivity).
  pose (p := Examples.stub "p" None (Examples.mk_job "j1" ASSIGNED "p")
               PENDING []).
  assert (Hp : provider_of_job g job = Some p) by reflexivity.
  destruct (job_status_mirrors_provider g 10 "j1" job p Hj Hp)
    as (Hs & _ & Hc & _).
  split.
  - exact (Hs (mkJobUpdate "j1" PENDING None None) eq_refl).
  - exact (Hc eq_refl).
Defined.

End Registry.

(** ** Fault isolation in the fan-outs *)

Section Isolation.
Import TesseractsGateway.
Variable faulty : ProviderAdapter.t -> bool.

Lemma valid_quotes_without req (ps : list ProviderAdapter.t) :
  (forall p, p ∈ ps -> faulty p = true -> always_raises p) ->
  omap id (map (fun p => RouteOptimizer._get_provider_quote p req)
               (List.filter (RouteOptimizer.suitable req) ps))
  = omap id (map (fun p => RouteOptimizer._get_provider_quote p req)
               (List.filter (RouteOptimizer.suitable req)
                  (List.filter (keep faulty) ps))).
Proof.
  induction ps as [|p ps IH]; intros H; [done|].
  assert (IH' := IH (fun q Hq => H q (list_elem_of_further _ _ _ Hq))).
  cbn [List.filter]. unfold keep at 1.
  destruct (faulty p) eqn:Hf; cbn [negb].
  - destruct (H p (list_elem_of_here _ _) Hf) as (Hquote & _).
    destruct (RouteOptimizer.suitable req p); [|exact IH'].
    cbn. unfold RouteOptimizer._get_provider_quote at 1.
    specialize (Hquote req).
    destruct (ProviderAdapter.get_quote p req); [done|]. cbn. exact IH'.
  - cbn [List.filter].
    destruct (RouteOptimizer.suitable req p); [|exact IH'].
    cbn. destruct (RouteOptimizer._get_provider_quote p req); cbn;
      by rewrite IH'.
Qed.

(** The two early returns of [get_optimal_quotes] do not change its value. *)
Lemma get_optimal_quotes_valid r now req n :
  RouteOptimizer.get_optimal_quotes r now req n =
  match omap id (map (fun p => RouteOptimizer._get_provider_quote p req)
               (RouteOptimizer._filter_suitable_providers r req)) with
  | [] => []
  | vs => RouteOptimizer.rank_quotes (RouteOptimizer.weights r) now req n vs
  end.
Proof.
  unfold RouteOptimizer.get_optimal_quotes.
  destruct (RouteOptimizer._filter_suitable_providers r req) as [|p ps];
    [done|].
  cbv zeta. by destruct (omap id _).
Qed.

Lemma get_optimal_quotes_without (g : t) now req n :
  (forall p, p ∈ RouteOptimizer.providers (router g) ->
             faulty p = true -> always_raises p) ->
  RouteOptimizer.get_optimal_quotes (router g) now req n
  = RouteOptimizer.get_optimal_quotes (router (without faulty g)) now req n.
Proof.
  intros H. rewrite !get_optimal_quotes_valid.
  unfold RouteOptimizer._filter_suitable_providers. cbn.
  by rewrite (valid_quotes_without req _ H).
Qed.

Lemma request_movement_without (g : t) now uuid req :
  (forall p, p ∈ RouteOptimizer.providers (router g) ->
             faulty p = true -> always_raises p) ->
  fst (request_movement g now uuid req)
    = fst (request_movement (without faulty g) now uuid req) /\
  active_quotes (snd (request_movement g now uuid req))
    = active_quotes (snd (request_movement (without faulty g) now uuid req)).
Proof.
  intros H. unfold request_movement. cbv zeta. cbn [fst snd].
  rewrite <- (get_optimal_quotes_without g now req 5 H).
  split; reflexivity.
Qed.

Lemma workers_without loc st r (d : list (string * ProviderAdapter.t)) :
  (forall p, p ∈ dict_values d -> faulty p = true -> always_raises p) ->
  let gathered := fun l =>
    concat (map (fun res => match res with Ok ws => ws | Raise _ => [] end)
      (map (fun p => ProviderAdapter.get_available_workers p loc r)
        (List.filter
           (fun p => bool_decide
                       (st ∈ ProviderAdapter.supported_service_types p)) l))) in
  gathered (dict_values d)
  = gathered (dict_values (List.filter (fun kv => keep faulty (snd kv)) d)).
Proof.
  intros H gathered. unfold gathered. clear gathered.
  induction d as [|[k p] d IH]; [done|].
  assert (IH' := IH (fun q Hq => H q (list_elem_of_further _ _ _ Hq))).
  cbn [List.filter dict_values map snd]. unfold keep at 1.
  destruct (faulty p) eqn:Hf; cbn [negb].
  - destruct (H p (list_elem_of_here _ _) Hf) as (_ & Hw & _).
    destruct (bool_decide _); [|exact IH'].
    cbn. specialize (Hw loc r).
    destruct (ProviderAdapter.get_available_workers p loc r); [done|].
    cbn. exact IH'.
  - cbn [dict_values map snd List.filter].
    destruct (bool_decide _); [|exact IH'].
    cbn. f_equal. exact IH'.
Qed.

Variable sqrt_float : Q -> Q.

Lemma get_available_workers_concat g loc st r :
  get_available_workers sqrt_float g loc st r =
  map (worker_view sqrt_float loc)
    (concat (map (fun res => match res with Ok ws => ws | Raise _ => [] end)
      (map (fun p => ProviderAdapter.get_available_workers p loc r)
        (List.filter
           (fun p => bool_decide
                       (st ∈ ProviderAdapter.supported_service_types p))
           (dict_values (providers g)))))).
Proof.
  unfold get_available_workers.
  destruct (List.filter _ _); done.
Qed.

Lemma get_available_workers_without g loc st r :
  (forall p, p ∈ dict_values (providers g) ->
             faulty p = true -> always_raises p) ->
  get_available_workers sqrt_float g loc st r
  = get_available_workers sqrt_float (without faulty g) loc st r.
Proof.
  intros H. rewrite !get_available_workers_concat. f_equal.
  apply (workers_without loc st r _ H).
Qed.

End Isolation.

Section Health.
Import RouteOptimizer.

(** The health entry of an id is that of the last provider registered with
    it. *)
Lemma health_fold_lookup (ps : list ProviderAdapter.t) (m : gmap string bool) i :
  foldl (fun m p => <[ProviderAdapter.provider_id p := health_of p]> m) m ps !! i
  = match last (List.filter (with_id i) ps) with
    | Some p => Some (health_of p)
    | None => m !! i
    end.
Proof.
  revert m. induction ps as [|p ps IH]; intros m; [done|].
  cbn [foldl List.filter]. rewrite IH. unfold with_id at 2.
  case_bool_decide as Hi.
  - destruct (List.filter _ ps) as [|q qs] eqn:E.
    + cbn. subst i. apply lookup_insert_eq.
    + change (last (p :: q :: qs)) with (last (q :: qs)).
      destruct (last (q :: qs)) eqn:El; [done|].
      by apply last_None in El.
  - destruct (last _); [done|]. by apply lookup_insert_ne.
Qed.

Lemma filter_with_id_absent i (ps : list ProviderAdapter.t) :
  i ∉ map ProviderAdapter.provider_id ps ->
  List.filter (with_id i) ps = [].
Proof.
  induction ps as [|p ps IH]; [done|]. cbn [map List.filter]. intros Hn.
  apply not_elem_of_cons in Hn as [Hne Hn]. unfold with_id at 1.
  case_bool_decide; [congruence|]. by apply IH.
Qed.

Lemma filter_with_id_unique (ps : list ProviderAdapter.t) p :
  NoDup (map ProviderAdapter.provider_id ps) -> p ∈ ps ->
  List.filter (with_id (ProviderAdapter.provider_id p)) ps = [p].
Proof.
  induction ps as [|q ps IH]; intros Hnd Hin; [by apply elem_of_nil in Hin|].
  cbn [map] in Hnd. apply NoDup_cons in Hnd as [Hq Hnd].
  cbn [List.filter]. unfold with_id at 1.
  apply elem_of_cons in Hin as [->|Hin].
  - rewrite bool_decide_eq_true_2 by done.
    by rewrite filter_with_id_absent.
  - case_bool_decide as Hi.
    + exfalso. apply Hq. rewrite Hi.
      apply list_elem_of_fmap. by exists p.
    + by apply IH.
Qed.

Lemma health_entry_unique self p :
  NoDup (map ProviderAdapter.provider_id (providers self)) ->
  p ∈ providers self ->
  get_provider_health_status self !! ProviderAdapter.provider_id p
  = Some (health_of p).
Proof.
  intros Hnd Hin. unfold get_provider_health_status.
  rewrite health_fold_lookup. by rewrite (filter_with_id_unique _ _ Hnd Hin).
Qed.

End Health.

(** ** Concurrent acceptances *)

Section Race.
Import TesseractsGateway AcceptRace.

















End Race.

(** * Further properties of the router and the gateway *)

(** ** The ranking *)

Section Ranking.
Import RouteOptimizer.

Lemma insert_desc_perm x l : insert_desc x l ≡ₚ x :: l.
Proof.
  induction l as [|y l IH]; [done|]. cbn [insert_desc].
  destruct (Qgt_bool (snd y) (snd x)); [|done].
  rewrite IH. apply Permutation_swap.
Qed.

Lemma sort_desc_perm l : sort_desc l ≡ₚ l.
Proof.
  induction l as [|x l IH]; [done|].
  cbn [sort_desc foldr]. fold (sort_desc l).
  by rewrite insert_desc_perm, IH.
Qed.

Lemma rank_quotes_scored ws now req n vs :
  rank_quotes ws now req n vs
  = map fst (take n (sort_desc (map (scored ws now req) vs))).
Proof. reflexivity. Qed.

Lemma map_fst_scored ws now req vs : map fst (map (scored ws now req) vs) = vs.
Proof. induction vs as [|v vs IH]; [done|]. cbn. by rewrite IH. Qed.

Lemma rank_quotes_all ws now req n vs :
  (length vs <= n)%nat -> rank_quotes ws now req n vs ≡ₚ vs.
Proof.
  intros Hn. rewrite rank_quotes_scored.
  rewrite take_ge.
  - rewrite sort_desc_perm. by rewrite map_fst_scored.
  - rewrite sort_desc_perm, length_map. exact Hn.
Qed.

Lemma rank_quotes_length ws now req n vs :
  length (rank_quotes ws now req n vs) = (n `min` length vs)%nat.
Proof.
  rewrite rank_quotes_scored, length_map, length_take.
  by rewrite sort_desc_perm, length_map.
Qed.

Lemma rank_quotes_elem ws now req n vs q :
  q ∈ rank_quotes ws now req n vs -> q ∈ vs.
Proof.
  rewrite rank_quotes_scored. intros Hq.
  apply list_elem_of_fmap in Hq as (x & -> & Hx).
  apply elem_of_take in Hx as (k & Hk & _).
  apply list_elem_of_lookup_2 in Hk. rewrite sort_desc_perm in Hk.
  apply list_elem_of_fmap in Hk as (q & -> & Hq). exact Hq.
Qed.

Lemma get_optimal_quotes_rank r now req n :
  get_optimal_quotes r now req n
  = rank_quotes (weights r) now req n (gathered_quotes r req).
Proof.
  unfold get_optimal_quotes, gathered_quotes.
  destruct (_filter_suitable_providers r req) as [|p ps]; [by destruct n|].
  cbv zeta. destruct (omap id _); [by destruct n|done].
Qed.

Lemma elem_of_gathered_quotes r req q :
  q ∈ gathered_quotes r req <->
  exists p, p ∈ providers r /\ suitable req p = true /\
            ProviderAdapter.get_quote p req = Ok (Some q).
Proof.
  unfold gathered_quotes, _filter_suitable_providers.
  rewrite list_elem_of_omap. split.
  - intros (o & Ho & Hq). cbn in Hq. subst o.
    apply list_elem_of_fmap in Ho as (p & Hp & Hin).
    apply list_elem_of_In, filter_In in Hin as [Hin Hs].
    exists p. split; [by apply list_elem_of_In|]. split; [done|].
    unfold _get_provider_quote in Hp.
    destruct (ProviderAdapter.get_quote p req) as [o|]; [|done]. by subst o.
  - intros (p & Hin & Hs & Hq). exists (Some q). split; [|done].
    apply list_elem_of_fmap. exists p. split.
    + unfold _get_provider_quote. by rewrite Hq.
    + apply list_elem_of_In, filter_In. split; [by apply list_elem_of_In|done].
Qed.

(** X2: [get_optimal_quotes] returns [max_quotes] quotes, or all the gathered
    ones when there are fewer; every returned quote was offered by a
    registered provider that supports the service type, covers the area and
    answered [get_quote] with it; when the gathered quotes fit under
    [max_quotes], the result is a rearrangement of them, none dropped and
    none repeated. *)
Theorem optimal_quotes_complete r now req n :
  length (get_optimal_quotes r now req n)
    = (n `min` length (gathered_quotes r req))%nat /\
  (forall q, q ∈ get_optimal_quotes r now req n ->
     exists p, p ∈ providers r /\ suitable req p = true /\
               ProviderAdapter.get_quote p req = Ok (Some q)) /\
  ((length (gathered_quotes r req) <= n)%nat ->
     get_optimal_quotes r now req n ≡ₚ gathered_quotes r req).
Proof.
  rewrite get_optimal_quotes_rank. split; [apply rank_quotes_length|]. split.
  - intros q Hq. apply elem_of_gathered_quotes.
    by eapply rank_quotes_elem.
  - apply rank_quotes_all.
Qed.

End Ranking.

Section Recommendation.
Import RouteOptimizer TesseractsGateway.


(** X5: when every registered provider either does not support the requested
    service type or area, declines ([None]) or raises, [request_movement]
    returns an empty list of quotes and no recommendation, raises nothing
    and leaves the gateway as it was. *)
Theorem no_offer_no_quotes (g : TesseractsGateway.t) now uuid req :
  (forall p, p ∈ RouteOptimizer.providers (router g) ->
     suitable req p = false \/
     ProviderAdapter.get_quote p req = Ok None \/
     is_ok (ProviderAdapter.get_quote p req) = false) ->
  request_movement g now uuid req
  = (mkMovementResponse ("req_" ++ uuid) [] None, g).
Proof.
  intros H.
  assert (Hg : gathered_quotes (router g) req = []).
  { destruct (gathered_quotes (router g) req) as [|q qs] eqn:E; [done|].
    assert (Hq : q ∈ gathered_quotes (router g) req)
      by (rewrite E; apply list_elem_of_here).
    apply elem_of_gathered_quotes in Hq as (p & Hin & Hs & Hq).
    destruct (H p Hin) as [Hn|[Hn|Hn]]; [congruence|congruence|].
    by rewrite Hq in Hn. }
  unfold request_movement. cbv zeta.
  rewrite get_optimal_quotes_rank, Hg. cbn. by destruct g.
Qed.

End Recommendation.

(** ** Signals, adjustments and weights *)

Section Signals.
Import RouteOptimizer.

(** X6: the cost score is antitone: a cheaper quote never has the lower cost
    score. *)
Theorem cheaper_never_scores_lower c1 c2 :
  (c1 <= c2)%Q ->
  (_normalize_cost_score c2 <= _normalize_cost_score c1)%Q.
Proof.
  intros Hle. unfold _normalize_cost_score.
  destruct (Qle_bool c1 5.00) eqn:H1, (Qle_bool c2 5.00) eqn:H2;
  destruct (Qle_bool 100.00 c1) eqn:H3, (Qle_bool 100.00 c2) eqn:H4;
  repeat match goal with
  | H : Qle_bool _ _ = true |- _ => apply Qle_bool_iff in H
  | H : Qle_bool _ _ = false |- _ => apply Qle_bool_false in H
  end; try lra; qsolve.
Qed.

Lemma priority_adjustment_lower now pr q :
  Quote_valid q -> (0.7 <= _get_priority_adjustment now pr q)%Q.
Proof.
  intros [[H0 H1] _]. unfold _get_priority_adjustment.
  destruct pr; try lra.
  cbv zeta. destruct (Qle_bool _ 10); [lra|].
  destruct (Qle_bool _ 20); lra.
Qed.

(** X7: for a quote with a confidence in [[0,1]] the priority adjustment lies
    between [0.7] and [1.3] for every priority, between [0.9] and [1.1]
    under high priority, and is [1] under low and normal priority. *)
Theorem priority_adjustment_range now pr q :
  Quote_valid q ->
  (0.7 <= _get_priority_adjustment now pr q /\
   _get_priority_adjustment now pr q <= 1.3)%Q /\
  (pr = HIGH ->
   (0.9 <= _get_priority_adjustment now pr q /\
    _get_priority_adjustment now pr q <= 1.1)%Q) /\
  (pr = LOW \/ pr = NORMAL -> _get_priority_adjustment now pr q == 1)%Q.
Proof.
  intros [[H0 H1] _]. unfold _get_priority_adjustment.
  destruct pr.
  - split; [lra|]. split; [done|]. intros _. reflexivity.
  - split; [lra|]. split; [done|]. intros _. reflexivity.
  - split; [lra|]. split; [intros _; lra|]. by intros [|].
  - split; [|split; [done|by intros [|]]].
    cbv zeta. destruct (Qle_bool _ 10); [lra|].
    destruct (Qle_bool _ 20); lra.
Qed.

(** X8: under weights none of which is negative (the time weight positive),
    the final score of a valid quote is strictly positive, for every
    priority and every clock value: no offer is scored down to zero. *)
Theorem quote_score_positive ws now q req :
  Quote_valid q -> weights_nonneg ws ->
  (0 < _calculate_quote_score ws now q req)%Q.
Proof.
  intros Hv (Hc & Ht & Hr & Hq).
  pose proof (priority_adjustment_lower now (priority req) q Hv) as Ha.
  pose proof (quality_score_range q Hv) as [Hq0 _].
  pose proof (cost_score_range (estimated_cost q)) as [Hc0 _].
  pose proof (time_score_lower now (estimated_pickup_time q)
                (estimated_delivery_time q) (requested_pickup_time req)) as Ht0.
  destruct Hv as [[Hr0 _] _].
  unfold _calculate_quote_score. cbv zeta.
  set (a := _get_priority_adjustment _ _ _) in *.
  set (c := _normalize_cost_score _) in *.
  set (t := _normalize_time_score _ _ _ _) in *.
  set (ql := _calculate_quality_score _) in *.
  set (r := confidence_score q) in *.
  set (wc := weight ws "cost") in *. set (wt := weight ws "time") in *.
  set (wr := weight ws "reliability") in *.
  set (wq := weight ws "quality") in *.
  clearbody a c t ql r wc wt wr wq.
  assert (0 <= wc * c)%Q by (apply Qmult_le_0_compat; lra).
  assert (0 <= wr * r)%Q by (apply Qmult_le_0_compat; lra).
  assert (0 <= wq * ql)%Q by (apply Qmult_le_0_compat; lra).
  assert (0 < wt * t)%Q by (apply Qmult_lt_0_compat; lra).
  apply Qmult_lt_0_compat; lra.
Qed.

(** X9: [update_weights] either raises, and then it is [WeightsError] and
    nothing has changed, or returns, and then the providers are the same,
    every key the update names has its new value and every other key keeps
    the value it had. *)
Theorem update_weights_merges_or_rejects self new_weights :
  (forall e, fst (update_weights self new_weights) = Raise e ->
     e = WeightsError /\ snd (update_weights self new_weights) = self) /\
  (fst (update_weights self new_weights) = Ok () ->
     providers (snd (update_weights self new_weights)) = providers self /\
     forall k,
       weights (snd (update_weights self new_weights)) !! k
       = match new_weights !! k with
         | Some v => Some v
         | None => weights self !! k
         end).
Proof.
  unfold update_weights.
  destruct (Qgt_bool _ _); cbn [fst snd providers weights].
  - split; [|done]. intros e [= <-]. done.
  - split; [done|]. intros _. split; [done|]. intros k.
    rewrite lookup_union. destruct (new_weights !! k), (weights self !! k); done.
Qed.

(** X10: after any sequence of [update_weights] calls, accepted or rejected,
    the four keys the scorer reads are still configured and the provider
    list is the one the optimizer was built with. *)
Theorem weights_survive_updates ps updates k :
  k ∈ ["cost"; "time"; "reliability"; "quality"] ->
  is_Some (weights (apply_updates (init ps) updates) !! k) /\
  providers (apply_updates (init ps) updates) = ps.
Proof.
  intros Hk.
  assert (H0 : is_Some (weights (init ps) !! k) /\ providers (init ps) = ps).
  { split; [|done]. cbn.
    repeat (apply elem_of_cons in Hk as [->|Hk]; [by vm_compute; eauto|]).
    by apply elem_of_nil in Hk. }
  revert H0. generalize (init ps). unfold apply_updates.
  induction updates as [|u us IH]; intros r [Hr Hp]; [done|].
  cbn [foldl]. apply IH. split; [by apply weights_keys_present|].
  unfold update_weights. by destruct (Qgt_bool _ _).
Qed.

(** X11: the keys of the health map are exactly the ids of the registered
    providers. *)
Theorem health_map_keys self :
  dom (get_provider_health_status self)
  = list_to_set (map ProviderAdapter.provider_id (providers self)).
Proof.
  unfold get_provider_health_status.
  assert (H : forall ps (m : gmap string bool),
    dom (foldl (fun m p => <[ProviderAdapter.provider_id p := health_of p]> m) m ps)
    = dom m ∪ list_to_set (map ProviderAdapter.provider_id ps)).
  { induction ps as [|p ps IH]; intros m; cbn [foldl map list_to_set].
    - by rewrite (right_id_L ∅ (∪)).
    - rewrite IH, dom_insert_L.
      by rewrite (comm_L (∪) _ (dom m)), <- (assoc_L (∪)). }
  rewrite H, dom_empty_L. by rewrite (left_id_L ∅ (∪)).
Qed.

(** X26: for a valid quote whose delivery is not before its pickup and, when
    the request names no pickup time, whose pickup is not before the clock,
    the four signals are within the unit interval: cost in [[0.1,1]], time in
    [[0.05,1]], reliability in [[0,1]], quality in [(0,1]]. *)
Theorem signals_within_unit_interval now q req :
  Quote_valid q ->
  (estimated_pickup_time q <= estimated_delivery_time q)%Q ->
  (is_Some (requested_pickup_time req) \/ now <= estimated_pickup_time q)%Q ->
  (0.1 <= _normalize_cost_score (estimated_cost q) /\
   _normalize_cost_score (estimated_cost q) <= 1)%Q /\
  (0.05 <= _normalize_time_score now (estimated_pickup_time q)
             (estimated_delivery_time q) (requested_pickup_time req) /\
   _normalize_time_score now (estimated_pickup_time q)
     (estimated_delivery_time q) (requested_pickup_time req) <= 1)%Q /\
  (0 <= confidence_score q /\ confidence_score q <= 1)%Q /\
  (0 < _calculate_quality_score q /\ _calculate_quality_score q <= 1)%Q.
Proof.
  intros Hv Hd Hp.
  split; [apply cost_score_range|].
  split; [split; [apply time_score_lower|by apply time_score_upper]|].
  split; [apply Hv|]. by apply quality_score_range.
Qed.


End Signals.

(** ** Multi-stop routes *)

Section MultiStopRoutes.
Import RouteOptimizer.

Lemma path_app a l1 b l2 c : path a l1 b -> path b l2 c -> path a (l1 ++ l2) c.
Proof.
  revert a. induction l1 as [|leg l1 IH]; intros a; cbn.
  - by intros ->.
  - intros [-> H1] H2. split; [done|]. by apply IH.
Qed.

Lemma Location_eqb_refl x : Location_eqb x x = true.
Proof.
  unfold Location_eqb. rewrite !Qeq_bool_refl. cbn.
  by apply bool_decide_eq_true_2.
Qed.

Lemma min_by_elem key best l : min_by key best l ∈ best :: l.
Proof.
  revert best. induction l as [|y l IH]; intros best; cbn [min_by].
  - apply list_elem_of_here.
  - destruct (Qgt_bool (key best) (key y)).
    + apply list_elem_of_further, IH.
    + specialize (IH best). apply elem_of_cons in IH as [->|IH].
      * apply list_elem_of_here.
      * by do 2 apply list_elem_of_further.
Qed.

Lemma min_by_least key best l x :
  x ∈ best :: l -> (key (min_by key best l) <= key x)%Q.
Proof.
  revert best x.
  assert (Hbest : forall l best, (key (min_by key best l) <= key best)%Q).
  { induction l0 as [|y l0 IH]; intros best; cbn [min_by]; [lra|].
    destruct (Qgt_bool (key best) (key y)) eqn:E; [|apply IH].
    apply Qgt_bool_true in E. specialize (IH y). lra. }
  induction l as [|y l IH]; intros best x Hx; cbn [min_by].
  - apply elem_of_cons in Hx as [->|Hx]; [lra|by apply elem_of_nil in Hx].
  - destruct (Qgt_bool (key best) (key y)) eqn:E.
    + apply Qgt_bool_true in E.
      apply elem_of_cons in Hx as [->|Hx].
      * specialize (Hbest l y). lra.
      * by apply IH.
    + apply Qgt_bool_false in E.
      apply elem_of_cons in Hx as [->|Hx]; [apply Hbest|].
      apply elem_of_cons in Hx as [->|Hx].
      * specialize (Hbest l best). lra.
      * apply IH. by apply list_elem_of_further.
Qed.

Lemma list_remove_elem x l :
  x ∈ l ->
  exists r, list_remove x l = Some r /\ S (length r) = length l /\
            forall y, y ∈ r -> y ∈ l.
Proof.
  induction l as [|y l IH]; intros Hx; [by apply elem_of_nil in Hx|].
  cbn [list_remove]. destruct (Location_eqb y x) eqn:E.
  - exists l. split; [done|]. split; [done|].
    intros z Hz. by apply list_elem_of_further.
  - apply elem_of_cons in Hx as [->|Hx]; [by rewrite Location_eqb_refl in E|].
    destruct (IH Hx) as (r & -> & Hlen & Hsub). exists (y :: r).
    split; [done|]. split; [cbn; lia|].
    intros z Hz. apply elem_of_cons in Hz as [->|Hz].
    + apply list_elem_of_here.
    + apply list_elem_of_further. by apply Hsub.
Qed.

Section MultiStopProps.
Variable sqrt_float : Q -> Q.

Lemma nearest_neighbor_loop_spec fuel : forall cur rem acc,
  (length rem <= fuel)%nat ->
  exists route final,
    nearest_neighbor_loop sqrt_float fuel cur rem acc
      = inr (Some (acc ++ route, final)) /\
    length route = length rem /\
    path cur route final /\
    final ∈ cur :: rem /\
    (forall leg, leg ∈ route -> fst leg ∈ cur :: rem /\ snd leg ∈ rem) /\
    (forall leg, head route = Some leg -> forall s, s ∈ rem ->
       (_calculate_distance sqrt_float cur (snd leg)
        <= _calculate_distance sqrt_float cur s)%Q).
Proof.
  induction fuel as [|fuel IH]; intros cur rem acc Hlen.
  - destruct rem as [|first rest]; [|cbn in Hlen; lia].
    exists [], cur. cbn. rewrite app_nil_r.
    split; [done|]. split; [done|]. split; [done|].
    split; [apply list_elem_of_here|].
    split; [|done]. intros leg Hleg. by apply elem_of_nil in Hleg.
  - destruct rem as [|first rest].
    { exists [], cur. cbn. rewrite app_nil_r.
      split; [done|]. split; [done|]. split; [done|].
      split; [apply list_elem_of_here|].
      split; [|done]. intros leg Hleg. by apply elem_of_nil in Hleg. }
    cbn [nearest_neighbor_loop].
    set (nearest := min_by (_calculate_distance sqrt_float cur) first rest).
    pose proof (min_by_elem (_calculate_distance sqrt_float cur) first rest)
      as Hin. fold nearest in Hin.
    destruct (list_remove_elem nearest (first :: rest) Hin)
      as (r & Hr & Hrlen & Hsub).
    rewrite Hr. cbn in Hlen, Hrlen.
    assert (Hsub' : forall y, y ∈ nearest :: r -> y ∈ first :: rest).
    { intros y Hy. apply elem_of_cons in Hy as [->|Hy]; [done|by apply Hsub]. }
    destruct (IH nearest r (acc ++ [(cur, nearest)])) as
      (route & final & Hloop & Hroute & Hpath & Hfinal & Hvisit & _); [lia|].
    exists ((cur, nearest) :: route), final.
    rewrite Hloop, <- app_assoc. cbn [app].
    split; [done|]. split; [cbn; lia|]. split; [by split|].
    split; [by apply list_elem_of_further, Hsub'|]. split.
    + intros leg Hleg. apply elem_of_cons in Hleg as [->|Hleg].
      * split; [apply list_elem_of_here|done].
      * destruct (Hvisit leg Hleg) as [Hf Hs].
        split; [by apply list_elem_of_further, Hsub'|by apply Hsub].
    + intros leg [= <-] s Hs. cbn [snd].
      by apply min_by_least.
Qed.

Lemma elem_of_removelast (l : list Location) x : x ∈ removelast l -> x ∈ l.
Proof.
  induction l as [|y l IH]; [done|]. cbn [removelast].
  destruct l as [|z l]; [intros H; by apply elem_of_nil in H|].
  intros H. apply elem_of_cons in H as [->|H]; [apply list_elem_of_here|].
  apply list_elem_of_further. by apply IH.
Qed.

Lemma elem_of_middle (l : list Location) x : x ∈ removelast (tl l) -> x ∈ l.
Proof.
  intros H. apply elem_of_removelast in H.
  destruct l as [|y l]; [done|]. by apply list_elem_of_further.
Qed.

Lemma length_removelast (l : list Location) :
  length (removelast l) = (length l - 1)%nat.
Proof.
  induction l as [|y l IH]; [done|]. cbn [removelast].
  destruct l as [|z l]; [done|]. cbn [length] in *. lia.
Qed.

(** X12: [optimize_multi_stop_route] raises [IndexError] on an empty list of
    stops. On any other list it returns a route (the loop ends, [remove]
    never fails) of [len(stops) - 1] legs, one leg for a single stop, that
    leads from the first stop to the last, each leg beginning where the
    previous one ended, through given stops only. *)
Theorem multi_stop_route_is_a_path stops st :
  (stops = [] ->
     optimize_multi_stop_route sqrt_float stops st = RouteRaises IndexError) /\
  (forall first final,
     head stops = Some first -> last stops = Some final ->
     exists legs,
       optimize_multi_stop_route sqrt_float stops st = Route legs /\
       length legs = (1 `max` (length stops - 1))%nat /\
       path first legs final /\
       (forall leg, leg ∈ legs -> fst leg ∈ stops /\ snd leg ∈ stops)).
Proof.
  split; [by intros ->|].
  intros first final Hfirst Hfinal.
  assert (Hf : first ∈ stops) by by apply head_Some_elem_of.
  assert (Hl : final ∈ stops).
  { apply last_Some in Hfinal as [l' ->]. apply elem_of_app. right.
    apply list_elem_of_here. }
  unfold optimize_multi_stop_route. rewrite Hfirst, Hfinal.
  case_bool_decide as Hlen.
  - exists [(first, final)]. split; [done|]. split.
    + destruct stops as [|a [|b [|c l]]]; cbn in *; try done; lia.
    + split; [done|]. intros leg Hleg.
      apply elem_of_cons in Hleg as [->|Hleg]; [done|].
      by apply elem_of_nil in Hleg.
  - cbv zeta.
    destruct (nearest_neighbor_loop_spec (length (removelast (tl stops)))
                first (removelast (tl stops)) [] (le_n _))
      as (route & cur & Hloop & Hroute & Hpath & Hcur & Hvisit & _).
    rewrite Hloop. cbn [app].
    exists (route ++ [(cur, final)]). split; [done|]. split.
    + rewrite length_app, Hroute, length_removelast. cbn [length].
      destruct stops as [|a l]; cbn [tl length] in *; lia.
    + split; [eapply path_app; [exact Hpath|done]|].
      assert (Hcur' : cur ∈ stops).
      { apply elem_of_cons in Hcur as [->|Hcur]; [done|].
        by apply elem_of_middle. }
      intros leg Hleg. apply elem_of_app in Hleg as [Hleg|Hleg].
      * destruct (Hvisit leg Hleg) as [H1 H2].
        split; [|by apply elem_of_middle].
        apply elem_of_cons in H1 as [->|H1]; [done|by apply elem_of_middle].
      * apply elem_of_cons in Hleg as [->|Hleg]; [done|].
        by apply elem_of_nil in Hleg.
Qed.

(** X13: with three stops or more, the first leg of the route leaves the first
    stop for an intermediate stop that is nearest to it: no intermediate stop
    is closer. *)
Theorem multi_stop_first_leg_is_nearest stops st first legs leg s :
  (2 < length stops)%nat ->
  head stops = Some first ->
  optimize_multi_stop_route sqrt_float stops st = Route legs ->
  head legs = Some leg ->
  s ∈ removelast (tl stops) ->
  fst leg = first /\ snd leg ∈ removelast (tl stops) /\
  (_calculate_distance sqrt_float first (snd leg)
   <= _calculate_distance sqrt_float first s)%Q.
Proof.
  intros Hlen Hfirst Hroute Hleg Hs.
  unfold optimize_multi_stop_route in Hroute. rewrite Hfirst in Hroute.
  rewrite bool_decide_eq_false_2 in Hroute by lia.
  destruct (last stops) as [final|]; [|done]. cbv zeta in Hroute.
  destruct (nearest_neighbor_loop_spec (length (removelast (tl stops)))
              first (removelast (tl stops)) [] (le_n _))
    as (route & cur & Hloop & Hlenr & Hpath & _ & Hvisit & Hnear).
  rewrite Hloop in Hroute. cbn [app] in Hroute. injection Hroute as <-.
  destruct route as [|leg0 route].
  { cbn in Hlenr. destruct (removelast (tl stops)); [|done].
    by apply elem_of_nil in Hs. }
  cbn in Hleg. injection Hleg as <-.
  destruct Hpath as [Hstart _]. split; [done|].
  split; [apply Hvisit, list_elem_of_here|].
  by apply Hnear.
Qed.

End MultiStopProps.

End MultiStopRoutes.

(** ** The gateway's stores *)

Section Stores.
Import TesseractsGateway.

Lemma dict_get_set {V} (k k' : string) (v : V) d :
  dict_get k (dict_set k' v d)
  = if decide (k = k') then Some v else dict_get k d.
Proof.
  induction d as [|[k0 v0] d IH]; cbn [dict_set dict_get].
  - by destruct (decide (k = k')).
  - destruct (decide (k' = k0)) as [->|Hne]; cbn [dict_get].
    + by destruct (decide (k = k0)).
    + destruct (decide (k = k0)) as [->|Hk].
      * destruct (decide (k0 = k')); [congruence|done].
      * exact IH.
Qed.

Lemma dict_set_keys {V} (k : string) (v : V) d :
  map fst (dict_set k v d) = if bool_decide (k ∈ map fst d) then map fst d
                             else map fst d ++ [k].
Proof.
  induction d as [|[k0 v0] d IH]; cbn [dict_set map fst].
  - rewrite bool_decide_eq_false_2; [done|]. apply not_elem_of_nil.
  - destruct (decide (k = k0)) as [->|Hne]; cbn [map fst].
    + rewrite bool_decide_eq_true_2; [done|]. apply list_elem_of_here.
    + rewrite IH. case_bool_decide as Hin.
      * rewrite bool_decide_eq_true_2; [done|]. by apply list_elem_of_further.
      * rewrite bool_decide_eq_false_2; [done|].
        intros Hc. apply elem_of_cons in Hc as [?|?]; done.
Qed.

Lemma dict_set_fresh {V} (k : string) (v : V) d :
  k ∉ map fst d -> dict_set k v d = d ++ [(k, v)].
Proof.
  induction d as [|[k0 v0] d IH]; cbn [dict_set map fst]; [done|].
  intros Hn. apply not_elem_of_cons in Hn as [Hne Hn].
  destruct (decide (k = k0)); [done|]. by rewrite IH.
Qed.


Lemma registry_lookup ps : forall d i,
  dict_get i (foldl register d ps)
  = match last (List.filter (with_id i) ps) with
    | Some p => Some p
    | None => dict_get i d
    end.
Proof.
  induction ps as [|p ps IH]; intros d i; [done|].
  cbn [foldl List.filter]. rewrite IH.
  unfold register. rewrite dict_get_set.
  destruct (with_id i p) eqn:Hw; unfold with_id in Hw;
    [apply bool_decide_eq_true in Hw as Hi
    |apply bool_decide_eq_false in Hw as Hi].
  - destruct (List.filter _ ps) as [|q qs] eqn:E.
    + cbn. subst i. by rewrite decide_True.
    + change (last (p :: q :: qs)) with (last (q :: qs)).
      destruct (last (q :: qs)) eqn:El; [done|].
      by apply last_None in El.
  - destruct (last _); [done|]. rewrite decide_False; [done|congruence].
Qed.

Lemma registry_keys_NoDup ps : forall d,
  NoDup (map fst d) -> NoDup (map fst (foldl register d ps)).
Proof.
  induction ps as [|p ps IH]; intros d Hd; [done|].
  cbn [foldl]. apply IH. unfold register. rewrite dict_set_keys.
  case_bool_decide as Hin; [done|].
  apply NoDup_app. split; [done|]. split.
  - intros x Hx Hx'. apply elem_of_cons in Hx' as [->|Hx']; [done|].
    by apply elem_of_nil in Hx'.
  - apply NoDup_singleton.
Qed.

Lemma registry_fresh ps : forall d,
  NoDup (map fst d ++ map ProviderAdapter.provider_id ps) ->
  foldl register d ps
  = d ++ map (fun p => (ProviderAdapter.provider_id p, p)) ps.
Proof.
  induction ps as [|p ps IH]; intros d Hnd; cbn [foldl map].
  - by rewrite app_nil_r.
  - cbn [map] in Hnd.
    assert (Hfresh : ProviderAdapter.provider_id p ∉ map fst d).
    { apply NoDup_app in Hnd as (_ & Hdis & _). intros Hin.
      apply (Hdis _ Hin). apply list_elem_of_here. }
    unfold register at 2. rewrite (dict_set_fresh _ _ _ Hfresh).
    rewrite IH.
    + by rewrite <- app_assoc.
    + rewrite map_app. cbn [map fst]. rewrite <- app_assoc. exact Hnd.
Qed.

(** X14: the gateway's provider dictionary has no duplicate key and maps an id
    to the last provider registered with it; when the ids are distinct, its
    values are the providers in registration order and every provider is
    found under its id. *)
Theorem gateway_registers_providers_by_id (ps : list ProviderAdapter.t) :
  NoDup (map fst (providers (init ps))) /\
  (forall i, dict_get i (providers (init ps))
             = last (List.filter (with_id i) ps)) /\
  (NoDup (map ProviderAdapter.provider_id ps) ->
     dict_values (providers (init ps)) = ps /\
     forall p, p ∈ ps ->
       dict_get (ProviderAdapter.provider_id p) (providers (init ps)) = Some p).
Proof.
  unfold init. cbn [providers]. fold register.
  split; [apply registry_keys_NoDup; constructor|].
  split.
  - intros i. rewrite registry_lookup. by destruct (last _).
  - intros Hnd. split.
    + rewrite registry_fresh by done. cbn [app]. unfold dict_values.
      rewrite map_map. cbn. apply map_id.
    + intros p Hp. rewrite registry_lookup.
      by rewrite (filter_with_id_unique _ _ Hnd Hp).
Qed.

Lemma cache_fold_lookup (qs : list Quote) : forall (m : gmap string Quote) k,
  foldl (fun m quote => <[quote_id quote := quote]> m) m qs !! k
  = match last (List.filter (fun q => bool_decide (quote_id q = k)) qs) with
    | Some q => Some q
    | None => m !! k
    end.
Proof.
  induction qs as [|q qs IH]; intros m k; [done|].
  cbn [foldl List.filter]. rewrite IH.
  case_bool_decide as Hk.
  - destruct (List.filter _ qs) as [|q' qs'] eqn:E.
    + cbn. subst k. apply lookup_insert_eq.
    + change (last (q :: q' :: qs')) with (last (q' :: qs')).
      destruct (last (q' :: qs')) eqn:El; [done|].
      by apply last_None in El.
  - destruct (last _); [done|]. by apply lookup_insert_ne.
Qed.

Lemma filter_quote_id_unique (qs : list Quote) q :
  NoDup (map quote_id qs) -> q ∈ qs ->
  List.filter (fun q' => bool_decide (quote_id q' = quote_id q)) qs = [q].
Proof.
  induction qs as [|x qs IH]; intros Hnd Hin; [by apply elem_of_nil in Hin|].
  cbn [map] in Hnd. apply NoDup_cons in Hnd as [Hx Hnd].
  cbn [List.filter].
  assert (Habsent : forall y, quote_id y ∉ map quote_id qs ->
    List.filter (fun q' => bool_decide (quote_id q' = quote_id y)) qs = []).
  { intros y Hy. clear -Hy. induction qs as [|z qs IH]; [done|].
    cbn [map] in Hy. apply not_elem_of_cons in Hy as [Hne Hy].
    cbn [List.filter]. rewrite bool_decide_eq_false_2 by congruence.
    by apply IH. }
  apply elem_of_cons in Hin as [->|Hin].
  - rewrite bool_decide_eq_true_2 by done. by rewrite Habsent.
  - case_bool_decide as Hi.
    + exfalso. apply Hx. rewrite Hi. apply list_elem_of_fmap. by exists q.
    + by apply IH.
Qed.

(** X15: [request_movement] returns at most five quotes and changes nothing but
    the quote cache: every returned quote id is cached afterwards, with a
    returned quote of that id (the quote itself when the returned ids are
    distinct), and the entries of all other ids are unchanged. *)
Theorem request_movement_caches_quotes (g : t) now uuid req :
  let resp := fst (request_movement g now uuid req) in
  let g' := snd (request_movement g now uuid req) in
  (length (quotes resp) <= 5)%nat /\
  active_jobs g' = active_jobs g /\
  providers g' = providers g /\ router g' = router g /\
  (forall q, q ∈ quotes resp ->
     exists q', active_quotes g' !! quote_id q = Some q' /\
                q' ∈ quotes resp /\ quote_id q' = quote_id q) /\
  (NoDup (map quote_id (quotes resp)) ->
     forall q, q ∈ quotes resp -> active_quotes g' !! quote_id q = Some q) /\
  (forall k, k ∉ map quote_id (quotes resp) ->
     active_quotes g' !! k = active_quotes g !! k).
Proof.
  intros resp g'. unfold resp, g', request_movement. cbv zeta.
  cbn [fst snd quotes active_jobs providers router active_quotes
       with_active_quotes].
  set (qs := RouteOptimizer.get_optimal_quotes (router g) now req 5).
  split.
  { unfold qs. rewrite get_optimal_quotes_valid.
    destruct (omap id _) as [|v vs]; [cbn; lia|].
    unfold RouteOptimizer.rank_quotes. rewrite length_map, length_take. lia. }
  do 3 (split; [done|]).
  split; [|split].
  - intros q Hq. rewrite cache_fold_lookup.
    destruct (last _) as [q'|] eqn:El.
    + exists q'. split; [done|].
      apply last_Some in El as [l' El].
      assert (Hin : q' ∈ List.filter
                (fun q0 => bool_decide (quote_id q0 = quote_id q)) qs).
      { rewrite El. apply elem_of_app. right. apply list_elem_of_here. }
      apply list_elem_of_In, filter_In in Hin as [Hin Hid].
      split; [by apply list_elem_of_In|]. by apply bool_decide_eq_true in Hid.
    + exfalso. apply last_None in El.
      assert (Hin : q ∈ List.filter
                (fun q0 => bool_decide (quote_id q0 = quote_id q)) qs).
      { apply list_elem_of_In, filter_In. split; [by apply list_elem_of_In|].
        by apply bool_decide_eq_true_2. }
      rewrite El in Hin. by apply elem_of_nil in Hin.
  - intros Hnd q Hq. rewrite cache_fold_lookup.
    by rewrite (filter_quote_id_unique _ _ Hnd Hq).
  - intros k Hk. rewrite cache_fold_lookup.
    destruct (last _) as [q'|] eqn:El; [|done].
    exfalso. apply Hk.
    apply last_Some in El as [l' El].
    assert (Hin : q' ∈ List.filter (fun q0 => bool_decide (quote_id q0 = k)) qs).
    { rewrite El. apply elem_of_app. right. apply list_elem_of_here. }
    apply list_elem_of_In, filter_In in Hin as [Hin Hid].
    apply bool_decide_eq_true in Hid. subst k.
    apply list_elem_of_fmap. exists q'. split; [done|by apply list_elem_of_In].
Qed.

Lemma accept_quote_quotes g now qid req k :
  active_quotes (snd (accept_quote g now qid req)) !! k = None \/
  active_quotes (snd (accept_quote g now qid req)) !! k = active_quotes g !! k.
Proof.
  unfold accept_quote.
  destruct (accept_quote_lookup g now qid) as [[q p]|e]; [|by right].
  destruct (ProviderAdapter.create_job p qid req) as [job|e]; [|by right].
  unfold accept_quote_store. cbn [active_quotes with_active_jobs].
  destruct (active_quotes g !! qid) as [q0|]; cbn; [|by right].
  destruct (decide (qid = k)) as [->|Hne].
  - left. apply lookup_delete_eq.
  - right. by apply lookup_delete_ne.
Qed.

Lemma step_keeps_absent g o k :
  Session.is_request o = false ->
  active_quotes g !! k = None ->
  active_quotes (Session.step g o) !! k = None.
Proof.
  intros Hreq Hk. destruct o as [now uuid req|now qid req|now jid|now jid|now];
    [done| | | |]; cbn [Session.step].
  - destruct (accept_quote_quotes g now qid req k) as [H|H]; congruence.
  - unfold get_job_status.
    destruct (active_jobs g !! jid) as [job|]; [|done].
    destruct (provider_of_job g job) as [p|]; [|done].
    by destruct (ProviderAdapter.get_job_status p jid).
  - unfold cancel_job.
    destruct (active_jobs g !! jid) as [job|]; [|done].
    destruct (provider_of_job g job) as [p|]; [|done].
    by destruct (ProviderAdapter.cancel_job p jid) as [[|]|].
  - by rewrite lookup_cleanup, Hk.
Qed.

Lemma run_keeps_absent ops : forall g k,
  forallb (fun o => negb (Session.is_request o)) ops = true ->
  active_quotes g !! k = None ->
  active_quotes (Session.run g ops) !! k = None.
Proof.
  induction ops as [|o ops IH]; intros g k Hreq Hk; [done|].
  cbn [forallb] in Hreq. apply andb_true_iff in Hreq as [Ho Hreq].
  apply negb_true_iff in Ho.
  cbn [Session.run foldl]. apply IH; [done|]. by apply step_keeps_absent.
Qed.

(** X16: once [accept_quote] has returned a job for a quote id, every later
    [accept_quote] on that id fails with [QuoteNotFound] and changes nothing,
    whatever acceptances, status polls, cancellations and sweeps happen in
    between, until a [request_movement] caches the id again. *)
Theorem accepted_quote_is_spent (g g' : t) now qid req job ops now' req' :
  accept_quote g now qid req = (Ok job, g') ->
  forallb (fun o => negb (Session.is_request o)) ops = true ->
  accept_quote (Session.run g' ops) now' qid req'
  = (Raise QuoteNotFound, Session.run g' ops).
Proof.
  intros Hacc Hops.
  assert (Hgone : active_quotes g' !! qid = None).
  { revert Hacc. unfold accept_quote, accept_quote_store.
    destruct (accept_quote_lookup g now qid) as [[q p]|e]; [|done].
    destruct (ProviderAdapter.create_job p qid req) as [j|e]; [|done].
    cbn [active_quotes with_active_jobs].
    destruct (active_quotes g !! qid); [|done].
    intros [= _ <-]. cbn. apply lookup_delete_eq. }
  pose proof (run_keeps_absent ops g' qid Hops Hgone) as Hrun.
  unfold accept_quote, accept_quote_lookup. by rewrite Hrun.
Qed.

(** X17: a quote the sweep removed can not be accepted afterwards: after
    [cleanup_expired_quotes] at a time past its expiry, [accept_quote] on its
    id fails with [QuoteNotFound] (no longer [QuoteExpired]), whatever calls
    other than [request_movement] happen in between. *)
Theorem swept_quote_is_not_found (g : t) sweep_time qid quote ops now req :
  active_quotes g !! qid = Some quote ->
  (expires_at quote < sweep_time)%Q ->
  forallb (fun o => negb (Session.is_request o)) ops = true ->
  accept_quote
    (Session.run (cleanup_expired_quotes g sweep_time) ops) now qid req
  = (Raise QuoteNotFound,
     Session.run (cleanup_expired_quotes g sweep_time) ops).
Proof.
  intros Hq Hexp Hops.
  assert (Hgone : active_quotes (cleanup_expired_quotes g sweep_time) !! qid
                  = None).
  { rewrite lookup_cleanup, Hq.
    assert (E : Qgt_bool sweep_time (expires_at quote) = true)
      by by apply Qgt_bool_true.
    by rewrite E. }
  pose proof (run_keeps_absent ops _ qid Hops Hgone) as Hrun.
  unfold accept_quote, accept_quote_lookup. by rewrite Hrun.
Qed.

Lemma step_frame g o :
  providers (Session.step g o) = providers g /\
  router (Session.step g o) = router g /\
  dom (active_jobs g) ⊆ dom (active_jobs (Session.step g o)).
Proof.
  destruct o as [now uuid req|now qid req|now jid|now jid|now];
    cbn [Session.step].
  - done.
  - unfold accept_quote.
    destruct (accept_quote_lookup g now qid) as [[q p]|e]; [|done].
    destruct (ProviderAdapter.create_job p qid req) as [j|e]; [|done].
    unfold accept_quote_store. cbn [active_quotes with_active_jobs].
    destruct (active_quotes g !! qid); cbn;
      (split; [done|]; split; [done|]);
      rewrite dom_insert_L; apply union_subseteq_r.
  - unfold get_job_status.
    destruct (active_jobs g !! jid) as [job|]; [|done].
    destruct (provider_of_job g job) as [p|]; [|done].
    destruct (ProviderAdapter.get_job_status p jid); [|done].
    cbn. split; [done|]. split; [done|].
    rewrite dom_insert_L. apply union_subseteq_r.
  - unfold cancel_job.
    destruct (active_jobs g !! jid) as [job|]; [|done].
    destruct (provider_of_job g job) as [p|]; [|done].
    destruct (ProviderAdapter.cancel_job p jid) as [[|]|]; [|done|done].
    cbn. split; [done|]. split; [done|].
    rewrite dom_insert_L. apply union_subseteq_r.
  - done.
Qed.

(** X18: no sequence of gateway calls changes the provider dictionary or the
    router (its providers and weights), and none removes a job from the
    registry. *)
Theorem session_keeps_providers_and_jobs (g : t) ops :
  providers (Session.run g ops) = providers g /\
  router (Session.run g ops) = router g /\
  dom (active_jobs g) ⊆ dom (active_jobs (Session.run g ops)).
Proof.
  revert g. induction ops as [|o ops IH]; intros g; [done|].
  cbn [Session.run foldl].
  destruct (step_frame g o) as (Hp & Hr & Hj).
  destruct (IH (Session.step g o)) as (Hp' & Hr' & Hj').
  unfold Session.run in *. rewrite Hp', Hr', Hp, Hr.
  split; [done|]. split; [done|]. by etrans.
Qed.

(** X19: when the lookup of [accept_quote] finds the quote and, registered
    under the quote's provider id, the provider [provider], and the job that
    [provider] creates carries that same id, [accept_quote] returns the job
    and registers it under its id, and [get_job_status], [cancel_job] and
    [track_job] on that id answer what [provider] answers. Which provider
    issued the quote plays no part: the one called is the one registered
    under the id. *)
Theorem accepted_job_is_polled_at_its_provider
    (track : ProviderAdapter.t -> string -> result (option Location))
    (g : t) now qid req quote provider job later :
  accept_quote_lookup g now qid = Ok (quote, provider) ->
  ProviderAdapter.create_job provider qid req = Ok job ->
  job_provider_id job = Some (quote_provider_id quote) ->
  let g' := snd (accept_quote g now qid req) in
  fst (accept_quote g now qid req) = Ok job /\
  active_jobs g' !! job_id job = Some job /\
  fst (get_job_status g' later (job_id job))
    = ProviderAdapter.get_job_status provider (job_id job) /\
  fst (cancel_job g' later (job_id job))
    = ProviderAdapter.cancel_job provider (job_id job) /\
  track_job track g' (job_id job) = track provider (job_id job).
Proof.
  intros Hl Hc Hpid g'.
  apply accept_quote_lookup_Ok in Hl as Hl'. destruct Hl' as (Hq & _ & Hp).
  assert (Hacc : accept_quote g now qid req
                 = (Ok job, with_active_quotes
                      (with_active_jobs g (<[job_id job := job]> (active_jobs g)))
                      (delete qid (active_quotes g)))).
  { unfold accept_quote. rewrite Hl, Hc. unfold accept_quote_store.
    cbn [active_quotes with_active_jobs]. by rewrite Hq. }
  unfold g'. rewrite Hacc. cbn [fst snd].
  assert (Hj : active_jobs (with_active_quotes
                 (with_active_jobs g (<[job_id job := job]> (active_jobs g)))
                 (delete qid (active_quotes g))) !! job_id job = Some job)
    by apply lookup_insert_eq.
  split; [done|]. split; [exact Hj|].
  unfold get_job_status, cancel_job, track_job. rewrite Hj.
  unfold provider_of_job. rewrite Hpid.
  cbn [providers with_active_quotes with_active_jobs]. rewrite Hp.
  split; [by destruct (ProviderAdapter.get_job_status provider (job_id job))|].
  split; [|done].
  by destruct (ProviderAdapter.cancel_job provider (job_id job)) as [[|]|].
Qed.

(** X20: after [cleanup_expired_quotes] the cache holds exactly the quotes that
    were cached and whose expiry is not before the clock; jobs, providers and
    router are untouched; sweeping again at the same time changes nothing,
    and a later sweep makes an earlier one redundant. *)
Theorem sweep_keeps_exactly_the_unexpired (g : t) now :
  let g' := cleanup_expired_quotes g now in
  (forall k q, active_quotes g' !! k = Some q <->
               active_quotes g !! k = Some q /\ (now <= expires_at q)%Q) /\
  active_jobs g' = active_jobs g /\
  providers g' = providers g /\ router g' = router g /\
  cleanup_expired_quotes g' now = g' /\
  (forall later, (now <= later)%Q ->
     cleanup_expired_quotes g' later = cleanup_expired_quotes g later).
Proof.
  intros g'.
  assert (Hchar : forall t k q,
    active_quotes (cleanup_expired_quotes g t) !! k = Some q <->
    active_quotes g !! k = Some q /\ (t <= expires_at q)%Q).
  { intros t k q. rewrite lookup_cleanup.
    destruct (active_quotes g !! k) as [q0|]; [|by split; [|intros []]].
    destruct (Qgt_bool t (expires_at q0)) eqn:E.
    - apply Qgt_bool_true in E. split; [done|]. intros [[= ->] ?]. lra.
    - apply Qgt_bool_false in E. split.
      + intros [= ->]. done.
      + by intros [[= ->] _]. }
  split; [apply Hchar|]. do 3 (split; [done|]).
  assert (Heq : forall t, (now <= t)%Q ->
    active_quotes (cleanup_expired_quotes g' t)
    = active_quotes (cleanup_expired_quotes g t)).
  { intros t Ht. apply map_eq. intros k. apply option_eq. intros q.
    rewrite lookup_cleanup. unfold g'.
    destruct (active_quotes (cleanup_expired_quotes g now) !! k) as [q0|] eqn:E.
    - apply Hchar in E as [E Hn].
      destruct (Qgt_bool t (expires_at q0)) eqn:E'.
      + apply Qgt_bool_true in E'. split; [done|].
        intros Hq. apply Hchar in Hq as [Hq Hq']. exfalso.
        rewrite E in Hq. injection Hq as ->. lra.
      + apply Qgt_bool_false in E'. rewrite Hchar, E. split.
        * intros [= ->]. done.
        * by intros [[= ->] _].
    - split; [done|]. intros Hq. apply Hchar in Hq as [Hq Hq'].
      assert (Hin : active_quotes (cleanup_expired_quotes g now) !! k = Some q).
      { apply Hchar. split; [done|lra]. }
      congruence. }
  split.
  - unfold cleanup_expired_quotes at 1. fold (cleanup_expired_quotes g' now).
    pose proof (Heq now ltac:(lra)) as H. fold g' in H.
    destruct g' as [ps r js qs] eqn:Eg. unfold cleanup_expired_quotes in *.
    cbn in *. by rewrite H.
  - intros later Hl. specialize (Heq later Hl).
    unfold cleanup_expired_quotes in *. cbn in *. by rewrite Heq.
Qed.

(** X21: for a quote id that is absent or not yet expired at the time of the
    sweep, accepting after the sweep gives the result of accepting before
    it, and the same gateway as sweeping afterwards. *)
Theorem accept_commutes_with_sweep (g : t) sweep_time now qid req :
  (forall q, active_quotes g !! qid = Some q ->
             (sweep_time <= expires_at q)%Q) ->
  accept_quote (cleanup_expired_quotes g sweep_time) now qid req
  = (fst (accept_quote g now qid req),
     cleanup_expired_quotes (snd (accept_quote g now qid req)) sweep_time).
Proof.
  intros Hlive.
  assert (Hq : active_quotes (cleanup_expired_quotes g sweep_time) !! qid
               = active_quotes g !! qid).
  { rewrite lookup_cleanup. destruct (active_quotes g !! qid) as [q|] eqn:E;
      [|done].
    assert (E' : Qgt_bool sweep_time (expires_at q) = false)
      by (apply Qgt_bool_false; by apply Hlive).
    by rewrite E'. }
  unfold accept_quote, accept_quote_lookup. rewrite Hq.
  destruct (active_quotes g !! qid) as [q|] eqn:E; [|done].
  destruct (Qgt_bool now (expires_at q)); [done|].
  cbn [providers cleanup_expired_quotes with_active_quotes].
  destruct (dict_get _ _) as [p|]; [|done].
  destruct (ProviderAdapter.create_job p qid req) as [job|]; [|done].
  unfold accept_quote_store. cbn [active_quotes with_active_jobs].
  fold (cleanup_expired_quotes g sweep_time). rewrite Hq, E.
  cbn [fst snd]. f_equal.
  unfold cleanup_expired_quotes, with_active_quotes, with_active_jobs.
  cbn. f_equal. by rewrite map_filter_delete.
Qed.


Lemma insert_existing_dom (m : gmap string Job) k j j' :
  m !! k = Some j -> dom (<[k := j']> m) = dom m.
Proof.
  intros Hk. rewrite dom_insert_L.
  apply elem_of_dom_2 in Hk. apply subseteq_union_1_L.
  by apply singleton_subseteq_l.
Qed.

Lemma get_job_status_frame (g : t) now jid :
  let g' := snd (get_job_status g now jid) in
  dom (active_jobs g') = dom (active_jobs g) /\
  active_quotes g' = active_quotes g /\
  providers g' = providers g /\ router g' = router g.
Proof.
  intros g'. unfold g', get_job_status.
  destruct (active_jobs g !! jid) as [job|] eqn:Hj; [|done].
  destruct (provider_of_job g job) as [p|]; [|done].
  destruct (ProviderAdapter.get_job_status p jid) as [upd|e]; [|done].
  cbn [fst snd active_jobs active_quotes providers router with_active_jobs].
  split; [by eapply insert_existing_dom|done].
Qed.

Lemma cancel_job_frame (g : t) now jid :
  let g' := snd (cancel_job g now jid) in
  dom (active_jobs g') = dom (active_jobs g) /\
  active_quotes g' = active_quotes g /\
  providers g' = providers g /\ router g' = router g.
Proof.
  intros g'. unfold g', cancel_job.
  destruct (active_jobs g !! jid) as [job|] eqn:Hj; [|done].
  destruct (provider_of_job g job) as [p|]; [|done].
  destruct (ProviderAdapter.cancel_job p jid) as [[|]|e]; [|done|done].
  cbn [fst snd active_jobs active_quotes providers router with_active_jobs].
  split; [by eapply insert_existing_dom|done].
Qed.

(** X22: [get_job_status] and [cancel_job] fail with [JobNotFound] on an
    unknown job id and with [ProviderNotAvailable] on a job whose provider
    is not registered, in both cases before any provider is called and
    leaving the gateway as it was; whatever they return, the set of
    registered job ids, the quote cache, the provider dictionary and the
    router are unchanged. *)
Theorem status_and_cancel_keep_the_registry_keys (g : t) now jid :
  let gs := snd (get_job_status g now jid) in
  let gc := snd (cancel_job g now jid) in
  (active_jobs g !! jid = None ->
     get_job_status g now jid = (Raise JobNotFound, g) /\
     cancel_job g now jid = (Raise JobNotFound, g)) /\
  (forall job, active_jobs g !! jid = Some job ->
     provider_of_job g job = None ->
     get_job_status g now jid = (Raise ProviderNotAvailable, g) /\
     cancel_job g now jid = (Raise ProviderNotAvailable, g)) /\
  dom (active_jobs gs) = dom (active_jobs g) /\
  dom (active_jobs gc) = dom (active_jobs g) /\
  active_quotes gs = active_quotes g /\ active_quotes gc = active_quotes g /\
  providers gs = providers g /\ providers gc = providers g /\
  router gs = router g /\ router gc = router g.
Proof.
  intros gs gc.
  destruct (get_job_status_frame g now jid) as (Hs1 & Hs2 & Hs3 & Hs4).
  destruct (cancel_job_frame g now jid) as (Hc1 & Hc2 & Hc3 & Hc4).
  split.
  { intros Hn. unfold get_job_status, cancel_job. by rewrite Hn. }
  split.
  { intros job Hj Hp. unfold get_job_status, cancel_job. by rewrite Hj, Hp. }
  by repeat split.
Qed.

Lemma elem_of_concat {A} (ls : list (list A)) (x : A) :
  x ∈ concat ls <-> exists l, x ∈ l /\ l ∈ ls.
Proof.
  rewrite list_elem_of_In, in_concat. split.
  - intros (l & Hl & Hx). exists l. by rewrite !list_elem_of_In.
  - intros (l & Hx & Hl). exists l. by rewrite <- !list_elem_of_In.
Qed.

Section WorkersProps.
Variable sqrt_float : Q -> Q.

(** X23: [get_available_workers] returns exactly the views of the workers
    that the registered providers supporting the service type returned;
    providers that raise contribute nothing. *)
Theorem available_workers_are_the_supporting_providers (g : t) loc st radius v :
  v ∈ get_available_workers sqrt_float g loc st radius <->
  exists p ws w,
    p ∈ dict_values (providers g) /\
    st ∈ ProviderAdapter.supported_service_types p /\
    ProviderAdapter.get_available_workers p loc radius = Ok ws /\
    w ∈ ws /\ v = worker_view sqrt_float loc w.
Proof.
  rewrite get_available_workers_concat. rewrite list_elem_of_fmap. split.
  - intros (w & -> & Hw). apply elem_of_concat in Hw as (ws & Hw & Hws).
    apply list_elem_of_fmap in Hws as (res & -> & Hres).
    apply list_elem_of_fmap in Hres as (p & -> & Hp).
    apply list_elem_of_In, filter_In in Hp as [Hp Hst].
    apply bool_decide_eq_true in Hst.
    destruct (ProviderAdapter.get_available_workers p loc radius) as [ws|] eqn:E;
      [|by apply elem_of_nil in Hw].
    exists p, ws, w. split; [by apply list_elem_of_In|]. by repeat split.
  - intros (p & ws & w & Hp & Hst & Hres & Hw & ->). exists w. split; [done|].
    apply elem_of_concat. exists ws. split; [done|].
    apply list_elem_of_fmap. exists (Ok ws). split; [done|].
    apply list_elem_of_fmap. exists p. split; [done|].
    apply list_elem_of_In, filter_In. split; [by apply list_elem_of_In|].
    by apply bool_decide_eq_true_2.
Qed.

End WorkersProps.

Import AcceptRace.

(** X25: when the provider's answer to a suspended call arrives, the job is
    registered under its id whether the call then returns it or fails on the
    final [del]; it ends in one of these two ways. *)
Theorem provider_answer_is_registered qid w i job w' :
  exec_event qid w (CreateReturned i job) = Some w' ->
  active_jobs (gateway w') !! job_id job = Some job /\
  (tasks w' !! i = Some (Finished (Ok job)) \/
   tasks w' !! i = Some (Finished (Raise KeyError))).
Proof.
  cbn [exec_event].
  destruct (tasks w !! i) as [[|q p|]|] eqn:Hi; try done.
  unfold accept_quote_store. cbn [active_quotes with_active_jobs].
  assert (Hlt : (i < length (tasks w))%nat) by by eapply lookup_lt_Some.
  destruct (active_quotes (gateway w) !! qid); intros [= <-];
    cbn [gateway tasks active_jobs with_active_jobs with_active_quotes];
    (split; [apply lookup_insert_eq|]);
    rewrite list_lookup_insert_eq by done; eauto.
Qed.

End Stores.

(** ** Fault isolation, for providers with distinct ids *)

Section FaultIsolation.
Import TesseractsGateway.

Lemma offers_gathered ps req :
  offers ps req
  = omap id (map (fun p => RouteOptimizer._get_provider_quote p req)
               (List.filter (RouteOptimizer.suitable req) ps)).
Proof.
  unfold offers.
  change (fun p : ProviderAdapter.t =>
            bool_decide
              (service_type req ∈ ProviderAdapter.supported_service_types p)
            && (bool_decide ("global" ∈ ProviderAdapter.coverage_areas p)
                || bool_decide ("local" ∈ ProviderAdapter.coverage_areas p)))
    with (RouteOptimizer.suitable req).
  induction (List.filter (RouteOptimizer.suitable req) ps) as [|p l IH];
    [done|].
  cbn [map].
  change (omap id (RouteOptimizer._get_provider_quote p req
                   :: map (fun p => RouteOptimizer._get_provider_quote p req) l))
    with (match RouteOptimizer._get_provider_quote p req with
          | Some q =>
              q :: omap id
                     (map (fun p => RouteOptimizer._get_provider_quote p req) l)
          | None =>
              omap id (map (fun p => RouteOptimizer._get_provider_quote p req) l)
          end).
  rewrite <- IH. unfold RouteOptimizer._get_provider_quote.
  destruct (ProviderAdapter.get_quote p req) as [[q|]|] eqn:E;
    cbn; by rewrite E.
Qed.

Lemma gathered_quotes_offers r req :
  gathered_quotes r req = offers (RouteOptimizer.providers r) req.
Proof. by rewrite offers_gathered. Qed.

Lemma offers_without (faulty : ProviderAdapter.t -> bool) ps req :
  (forall p, p ∈ ps -> faulty p = true -> always_raises p) ->
  offers ps req = offers (List.filter (keep faulty) ps) req.
Proof.
  intros H. rewrite !offers_gathered. by apply valid_quotes_without.
Qed.

Lemma workers_offered_without (faulty : ProviderAdapter.t -> bool) ps loc st r :
  (forall p, p ∈ ps -> faulty p = true -> always_raises p) ->
  workers_offered ps loc st r
  = workers_offered (List.filter (keep faulty) ps) loc st r.
Proof.
  unfold workers_offered.
  induction ps as [|p ps IH]; intros H; [done|].
  assert (IH' := IH (fun q Hq => H q (list_elem_of_further _ _ _ Hq))).
  cbn [List.filter]. unfold keep at 1.
  destruct (faulty p) eqn:Hf; cbn [negb].
  - destruct (H p (list_elem_of_here _ _) Hf) as (_ & Hw & _).
    specialize (Hw loc r).
    destruct (bool_decide _); [|exact IH'].
    cbn [map concat].
    destruct (ProviderAdapter.get_available_workers p loc r); [done|].
    exact IH'.
  - cbn [List.filter]. destruct (bool_decide _); [|exact IH'].
    cbn [map concat]. by rewrite IH'.
Qed.

Lemma registry_values ps :
  NoDup (map ProviderAdapter.provider_id ps) ->
  dict_values (providers (init ps)) = ps.
Proof.
  intros Hnd. unfold init. cbn [providers]. fold register.
  rewrite registry_fresh by done. cbn [app]. unfold dict_values.
  rewrite map_map. cbn. apply map_id.
Qed.

(** The keys of the health map built over [ps]. *)
Lemma health_fold_dom (ps : list ProviderAdapter.t) : forall m : gmap string bool,
  dom (foldl (fun m p => <[ProviderAdapter.provider_id p
                           := RouteOptimizer.health_of p]> m) m ps)
  = dom m ∪ list_to_set (map ProviderAdapter.provider_id ps).
Proof.
  induction ps as [|p ps IH]; intros m; cbn [foldl map list_to_set].
  - by rewrite (right_id_L ∅ (∪)).
  - rewrite IH, dom_insert_L.
    rewrite (comm_L (∪) {[ProviderAdapter.provider_id p]} (dom m)).
    by rewrite (assoc_L (∪)).
Qed.

Lemma cached_after_fold (qs : list Quote) (m : gmap string Quote) q :
  q ∈ qs ->
  is_Some (foldl (fun m quote => <[quote_id quote := quote]> m) m qs
           !! quote_id q).
Proof.
  intros Hq. rewrite cache_fold_lookup.
  destruct (last _) as [q'|] eqn:El; [by eexists|].
  apply last_None in El. exfalso.
  assert (Hin : q ∈ List.filter
            (fun q0 => bool_decide (quote_id q0 = quote_id q)) qs).
  { apply list_elem_of_In, filter_In. split; [by apply list_elem_of_In|].
    by apply bool_decide_eq_true_2. }
  rewrite El in Hin. by apply elem_of_nil in Hin.
Qed.

(** C5, the claim as stated fails when two registered providers share an
    id. With the raising provider registered first, the one health entry of
    the id is [true]: the raising provider is reported healthy. With it
    registered last, the gateway's dictionary holds only the raising
    provider under the id, so [get_available_workers] returns nothing
    although the other provider has a worker, and that provider's health
    entry is [false]. *)
Lemma duplicate_ids_defeat_fault_isolation :
  (RouteOptimizer.get_provider_health_status
     (RouteOptimizer.init Examples.broken_first) !! "a" = Some true /\
   dom (RouteOptimizer.get_provider_health_status
          (RouteOptimizer.init Examples.broken_first)) = {["a"]}) /\
  (ProviderAdapter.get_available_workers Examples.healthy_a Examples.origin 10
     = Ok [Examples.worker "wa" "a" 4.5] /\
   get_available_workers (fun x => x) (init Examples.broken_last)
     Examples.origin DELIVERY 10 = [] /\
   RouteOptimizer.get_provider_health_status
     (RouteOptimizer.init Examples.broken_last) !! "a" = Some false).
Proof.
  split; split.
  - vm_compute; reflexivity.
  - apply (bool_decide_unpack _). vm_compute. exact I.
  - reflexivity.
  - split; vm_compute; reflexivity.
Qed.

(** C5, amended: for providers [ps] with pairwise distinct ids, some of
    which ([faulty]) raise on every call, and a gateway built on them: the
    quotes [request_movement] returns are the best five of, and when there
    are at most five exactly, the quotes offered by the other providers, each
    of them cached; [get_available_workers] returns the views of exactly the
    workers the other supporting providers report, in their order; response,
    cache and worker list are what they are with the faulty providers taken
    out; the health map has one entry for each registered id, [false] for a
    faulty provider and for any whose [health_check] raises, and the
    provider's own answer otherwise. *)
Theorem provider_fault_isolation (sqrt_float : Q -> Q)
    (faulty : ProviderAdapter.t -> bool) (ps : list ProviderAdapter.t) (g : t)
    now uuid req loc st radius :
  NoDup (map ProviderAdapter.provider_id ps) ->
  providers g = providers (init ps) ->
  RouteOptimizer.providers (router g) = ps ->
  (forall p, p ∈ ps -> faulty p = true -> always_raises p) ->
  let healthy := List.filter (keep faulty) ps in
  let response := fst (request_movement g now uuid req) in
  let g' := snd (request_movement g now uuid req) in
  let workers := get_available_workers sqrt_float g loc st radius in
  let health := RouteOptimizer.get_provider_health_status (router g) in
  (length (quotes response) = (5 `min` length (offers healthy req))%nat /\
   (forall q, q ∈ quotes response -> q ∈ offers healthy req) /\
   ((length (offers healthy req) <= 5)%nat ->
      quotes response ≡ₚ offers healthy req) /\
   (forall q, q ∈ quotes response ->
      is_Some (active_quotes g' !! quote_id q)) /\
   response = fst (request_movement (without faulty g) now uuid req) /\
   active_quotes g'
     = active_quotes (snd (request_movement (without faulty g) now uuid req))) /\
  (workers
     = map (worker_view sqrt_float loc) (workers_offered healthy loc st radius) /\
   map view_id workers = map worker_id (workers_offered healthy loc st radius) /\
   workers = get_available_workers sqrt_float (without faulty g) loc st radius) /\
  (dom health = list_to_set (map ProviderAdapter.provider_id ps) /\
   (forall p, p ∈ ps -> faulty p = true ->
      health !! ProviderAdapter.provider_id p = Some false) /\
   (forall p b, p ∈ ps -> ProviderAdapter.health_check p = Ok b ->
      health !! ProviderAdapter.provider_id p = Some b) /\
   (forall p e, p ∈ ps -> ProviderAdapter.health_check p = Raise e ->
      health !! ProviderAdapter.provider_id p = Some false)).
Proof.
  intros Hnd Hd Hr Hfaulty healthy response g' workers health.
  assert (Hfr : forall p, p ∈ RouteOptimizer.providers (router g) ->
                  faulty p = true -> always_raises p) by (by rewrite Hr).
  assert (Hfd : forall p, p ∈ dict_values (providers g) ->
                  faulty p = true -> always_raises p).
  { rewrite Hd, registry_values by done. exact Hfaulty. }
  assert (Hquotes : quotes response
            = RouteOptimizer.rank_quotes (RouteOptimizer.weights (router g))
                now req 5 (offers healthy req)).
  { unfold response, request_movement. cbv zeta. cbn [fst quotes].
    rewrite get_optimal_quotes_rank, gathered_quotes_offers, Hr.
    by rewrite (offers_without faulty ps req Hfaulty). }
  destruct (request_movement_without faulty g now uuid req Hfr)
    as [Hresp Hcache].
  assert (Hworkers : workers = map (worker_view sqrt_float loc)
                                 (workers_offered healthy loc st radius)).
  { unfold workers. rewrite get_available_workers_concat.
    rewrite Hd, registry_values by done. rewrite map_map.
    fold (workers_offered ps loc st radius).
    by rewrite (workers_offered_without faulty ps loc st radius Hfaulty). }
  assert (Hentry : forall p, p ∈ ps ->
            health !! ProviderAdapter.provider_id p
            = Some (RouteOptimizer.health_of p)).
  { intros p Hp. apply health_entry_unique; by rewrite Hr. }
  split; [|split].
  - split; [rewrite Hquotes; apply rank_quotes_length|].
    split; [intros q Hq; rewrite Hquotes in Hq; by eapply rank_quotes_elem|].
    split; [intros Hlen; rewrite Hquotes; by apply rank_quotes_all|].
    split; [|by split].
    intros q Hq. unfold g', response, request_movement in *.
    cbv zeta in *. cbn [fst snd quotes active_quotes with_active_quotes] in *.
    by apply cached_after_fold.
  - split; [exact Hworkers|]. split.
    + rewrite Hworkers, map_map. reflexivity.
    + by apply get_available_workers_without.
  - split.
    + unfold health, RouteOptimizer.get_provider_health_status.
      rewrite health_fold_dom, Hr, dom_empty_L. by rewrite (left_id_L ∅ (∪)).
    + split; [|split].
      * intros p Hp Hf. rewrite (Hentry p Hp).
        destruct (Hfaulty p Hp Hf) as (_ & _ & Hh).
        unfold RouteOptimizer.health_of.
        by destruct (ProviderAdapter.health_check p).
      * intros p b Hp Hb. rewrite (Hentry p Hp).
        unfold RouteOptimizer.health_of. by rewrite Hb.
      * intros p e Hp He. rewrite (Hentry p Hp).
        unfold RouteOptimizer.health_of. by rewrite He.
Qed.

Lemma fleet_faults (p : ProviderAdapter.t) :
  p ∈ Examples.fleet -> Examples.is_bad p = true -> always_raises p.
Proof.
  unfold Examples.fleet. intros Hin Hbad.
  apply elem_of_cons in Hin as [->|Hin]; [discriminate Hbad|].
  apply elem_of_cons in Hin as [->|Hin];
    [repeat split; intros; reflexivity|].
  apply elem_of_cons in Hin as [->|Hin]; [discriminate Hbad|].
  by apply elem_of_nil in Hin.
Defined.

Lemma provider_fault_isolation_witness :
  let g := init Examples.fleet in
  let req := Examples.request NORMAL None in
  quotes (fst (request_movement g 0 "0a1b2c3d" req))
    ≡ₚ [Examples.quote "qa" "a"; Examples.quote "qc" "c"] /\
  map view_id (get_available_workers (fun x => x) g Examples.origin DELIVERY 10)
    = ["wa"; "wc"] /\
  RouteOptimizer.get_provider_health_status (router g) !! "bad" = Some false /\
  RouteOptimizer.get_provider_health_status (router g) !! "c" = Some true.
Proof.
  intros g req.
  assert (Hnd : NoDup (map ProviderAdapter.provider_id Examples.fleet)).
  { change (NoDup ["a"; "bad"; "c"]).
    apply (bool_decide_unpack _). vm_compute. exact I. }
  assert (Hbad : Examples.broken "bad" ∈ Examples.fleet).
  { apply list_elem_of_further, list_elem_of_here. }
  assert (Hc : Examples.stub "c" (Some (Examples.quote "qc" "c"))
                 (Examples.mk_job "jc" ASSIGNED "c") ASSIGNED
                 [Examples.worker "wc" "c" 3.9] ∈ Examples.fleet).
  { do 2 apply list_elem_of_further. apply list_elem_of_here. }
  destruct (provider_fault_isolation (fun x => x) Examples.is_bad
              Examples.fleet g 0 "0a1b2c3d" req Examples.origin DELIVERY 10
              Hnd eq_refl eq_refl fleet_faults)
    as ((_ & _ & Hperm & _) & (_ & Hids & _) & (_ & Hfalse & Hok & _)).
  split; [apply Hperm; vm_compute; lia|].
  split; [exact Hids|].
  split; [exact (Hfalse _ Hbad eq_refl)|].
  exact (Hok _ true Hc eq_refl).
Defined.

End FaultIsolation.

(** ** Instances *)

Section RouterInstances.
Import RouteOptimizer.

Lemma optimal_quotes_complete_witness :
  let r := init Examples.fleet in
  let req := Examples.request NORMAL None in
  (length (gathered_quotes r req) <= 5)%nat /\
  length (get_optimal_quotes r 0 req 5) = 2%nat /\
  get_optimal_quotes r 0 req 5 ≡ₚ gathered_quotes r req.
Proof.
  intros r req.
  assert (Hlen : (length (gathered_quotes r req) <= 5)%nat)
    by (vm_compute; lia).
  destruct (optimal_quotes_complete r 0 req 5) as (Hl & _ & Hperm).
  split; [exact Hlen|]. split; [exact Hl|]. exact (Hperm Hlen).
Defined.

Lemma cheaper_never_scores_lower_witness :
  (10 <= 20 /\ _normalize_cost_score 20 <= _normalize_cost_score 10)%Q.
Proof.
  assert (H : (10 <= 20)%Q) by (vm_compute; discriminate).
  split; [exact H|]. exact (cheaper_never_scores_lower 10 20 H).
Defined.

Lemma example_quote_valid : Quote_valid (Examples.quote "qa" "a").
Proof. vm_compute. repeat split; discriminate. Qed.

Lemma priority_adjustment_range_witness :
  (0.9 <= _get_priority_adjustment 0 HIGH (Examples.quote "qa" "a") /\
   _get_priority_adjustment 0 HIGH (Examples.quote "qa" "a") <= 1.1)%Q.
Proof.
  destruct (priority_adjustment_range 0 HIGH (Examples.quote "qa" "a")
              example_quote_valid) as (_ & Hhigh & _).
  exact (Hhigh eq_refl).
Defined.

Lemma quote_score_positive_witness :
  (0 < _calculate_quote_score default_weights 0 (Examples.quote "qa" "a")
         (Examples.request URGENT None))%Q.
Proof.
  exact (quote_score_positive default_weights 0 (Examples.quote "qa" "a")
           (Examples.request URGENT None) example_quote_valid
           default_weights_nonneg).
Defined.

Lemma update_weights_merges_or_rejects_witness :
  snd (update_weights (init []) {["cost" := 0.5%Q]}) = init [] /\
  weights (snd (update_weights (init []) Examples.partial_update)) !! "cost"
    = Some 1.0%Q /\
  weights (snd (update_weights (init []) Examples.partial_update)) !! "time"
    = Some 0.4%Q.
Proof.
  destruct (update_weights_merges_or_rejects (init []) {["cost" := 0.5%Q]})
    as [Hrej _].
  destruct (update_weights_merges_or_rejects (init []) Examples.partial_update)
    as [_ Hacc].
  assert (Hr : fst (update_weights (init []) {["cost" := 0.5%Q]})
               = Raise WeightsError) by (vm_compute; reflexivity).
  assert (Ha : fst (update_weights (init []) Examples.partial_update) = Ok ())
    by (vm_compute; reflexivity).
  destruct (Hrej _ Hr) as [_ Hsame]. destruct (Hacc Ha) as [_ Hk].
  split; [exact Hsame|]. split; [exact (Hk "cost")|exact (Hk "time")].
Defined.

Lemma weights_survive_updates_witness :
  is_Some (weights (apply_updates (init Examples.fleet)
                      [Examples.partial_update; {["cost" := 0.5%Q]}])
           !! "quality").
Proof.
  assert (Hk : "quality" ∈ ["cost"; "time"; "reliability"; "quality"]).
  { do 3 apply list_elem_of_further. apply list_elem_of_here. }
  exact (proj1 (weights_survive_updates Examples.fleet
                  [Examples.partial_update; {["cost" := 0.5%Q]}]
                  "quality" Hk)).
Defined.

Lemma signals_within_unit_interval_witness :
  (_normalize_time_score 0 300 900 None <= 1)%Q.
Proof.
  assert (Hd : (estimated_pickup_time (Examples.quote "qa" "a")
                <= estimated_delivery_time (Examples.quote "qa" "a"))%Q)
    by (vm_compute; discriminate).
  assert (Hp : is_Some (requested_pickup_time (Examples.request NORMAL None))
               \/ (0 <= estimated_pickup_time (Examples.quote "qa" "a"))%Q)
    by (right; vm_compute; discriminate).
  destruct (signals_within_unit_interval 0 (Examples.quote "qa" "a")
              (Examples.request NORMAL None) example_quote_valid Hd Hp)
    as (_ & [_ Ht] & _).
  exact Ht.
Defined.


Lemma multi_stop_route_is_a_path_witness :
  exists legs,
    optimize_multi_stop_route (fun x => x) Examples.tour DELIVERY = Route legs /\
    length legs = 3%nat /\
    path (Examples.stop 0 0) legs (Examples.stop 9 9).
Proof.
  destruct (multi_stop_route_is_a_path (fun x => x) Examples.tour DELIVERY)
    as [_ H].
  destruct (H (Examples.stop 0 0) (Examples.stop 9 9) eq_refl eq_refl)
    as (legs & Hr & Hl & Hp & _).
  exists legs. split; [exact Hr|]. split; [exact Hl|exact Hp].
Defined.

Lemma multi_stop_first_leg_is_nearest_witness :
  (_calculate_distance (fun x => x) (Examples.stop 0 0) (Examples.stop 1 1)
   <= _calculate_distance (fun x => x) (Examples.stop 0 0) (Examples.stop 5 5))%Q.
Proof.
  assert (Hlen : (2 < length Examples.tour)%nat) by (vm_compute; lia).
  assert (Hroute : optimize_multi_stop_route (fun x => x) Examples.tour DELIVERY
            = Route [(Examples.stop 0 0, Examples.stop 1 1);
                     (Examples.stop 1 1, Examples.stop 5 5);
                     (Examples.stop 5 5, Examples.stop 9 9)])
    by (vm_compute; reflexivity).
  assert (Hs : Examples.stop 5 5 ∈ removelast (tl Examples.tour))
    by apply list_elem_of_here.
  exact (proj2 (proj2 (multi_stop_first_leg_is_nearest (fun x => x)
           Examples.tour DELIVERY (Examples.stop 0 0) _
           (Examples.stop 0 0, Examples.stop 1 1) (Examples.stop 5 5)
           Hlen eq_refl Hroute eq_refl Hs))).
Defined.
End RouterInstances.

Section GatewayInstances.
Import TesseractsGateway.

Lemma fleet_declines_freight (p : ProviderAdapter.t) :
  p ∈ RouteOptimizer.providers (router (init Examples.fleet)) ->
  RouteOptimizer.suitable Examples.freight_request p = false \/
  ProviderAdapter.get_quote p Examples.freight_request = Ok None \/
  is_ok (ProviderAdapter.get_quote p Examples.freight_request) = false.
Proof.
  cbn [init router RouteOptimizer.init RouteOptimizer.providers].
  unfold Examples.fleet. intros Hin.
  repeat (apply elem_of_cons in Hin as [->|Hin]; [by left|]).
  by apply elem_of_nil in Hin.
Qed.

Lemma no_offer_no_quotes_witness :
  request_movement (init Examples.fleet) 0 "0a1b2c3d" Examples.freight_request
  = (mkMovementResponse "req_0a1b2c3d" [] None, init Examples.fleet).
Proof.
  exact (no_offer_no_quotes (init Examples.fleet) 0 "0a1b2c3d"
           Examples.freight_request fleet_declines_freight).
Defined.

Lemma fleet_ids_distinct :
  NoDup (map ProviderAdapter.provider_id Examples.fleet).
Proof.
  change (NoDup ["a"; "bad"; "c"]).
  apply (bool_decide_unpack _). vm_compute. exact I.
Qed.

Lemma gateway_registers_providers_by_id_witness :
  dict_values (providers (init Examples.fleet)) = Examples.fleet /\
  dict_get "bad" (providers (init Examples.fleet))
    = Some (Examples.broken "bad").
Proof.
  destruct (gateway_registers_providers_by_id Examples.fleet) as (_ & _ & H).
  destruct (H fleet_ids_distinct) as [Hv Hget].
  split; [exact Hv|].
  apply (Hget (Examples.broken "bad")).
  apply list_elem_of_further, list_elem_of_here.
Defined.

Lemma request_movement_caches_quotes_witness :
  let g' := snd (request_movement (init Examples.fleet) 0 "0a1b2c3d"
                   (Examples.request NORMAL None)) in
  active_quotes g' !! "qc" = Some (Examples.quote "qc" "c").
Proof.
  intros g'.
  destruct (request_movement_caches_quotes (init Examples.fleet) 0 "0a1b2c3d"
              (Examples.request NORMAL None)) as (_ & _ & _ & _ & _ & H & _).
  assert (Hnd : NoDup (map quote_id
            (quotes (fst (request_movement (init Examples.fleet) 0 "0a1b2c3d"
                            (Examples.request NORMAL None)))))).
  { change (NoDup ["qa"; "qc"]).
    apply (bool_decide_unpack _). vm_compute. exact I. }
  apply (H Hnd (Examples.quote "qc" "c")).
  change (Examples.quote "qc" "c"
          ∈ [Examples.quote "qa" "a"; Examples.quote "qc" "c"]).
  apply list_elem_of_further, list_elem_of_here.
Defined.

Lemma accepted_quote_is_spent_witness :
  let req := Examples.request NORMAL None in
  let g' := snd (accept_quote Examples.colliding 100 "q2" req) in
  let ops := [Session.GetJobStatus 110 "uber_None";
              Session.CleanupExpiredQuotes 120;
              Session.AcceptQuote 130 "q2" req] in
  accept_quote (Session.run g' ops) 140 "q2" req
  = (Raise QuoteNotFound, Session.run g' ops).
Proof.
  intros req g' ops.
  assert (Hacc : accept_quote Examples.colliding 100 "q2" req
                 = (Ok (Examples.mk_job "uber_None" ASSIGNED "uber"), g'))
    by (vm_compute; reflexivity).
  exact (accepted_quote_is_spent Examples.colliding g' 100 "q2" req _ ops
           140 req Hacc eq_refl).
Defined.

Lemma swept_quote_is_not_found_witness :
  let req := Examples.request NORMAL None in
  accept_quote (Session.run (cleanup_expired_quotes Examples.racing 1300) [])
    1400 "q1" req
  = (Raise QuoteNotFound,
     Session.run (cleanup_expired_quotes Examples.racing 1300) []).
Proof.
  intros req.
  assert (Hq : active_quotes Examples.racing !! "q1"
               = Some (Examples.quote "q1" "p")) by (vm_compute; reflexivity).
  assert (Hexp : (expires_at (Examples.quote "q1" "p") < 1300)%Q)
    by reflexivity.
  exact (swept_quote_is_not_found Examples.racing 1300 "q1" _ [] 1400 req
           Hq Hexp eq_refl).
Defined.

Lemma accepted_job_is_polled_at_its_provider_witness :
  let req := Examples.request NORMAL None in
  let g' := snd (accept_quote Examples.colliding 100 "q2" req) in
  fst (get_job_status g' 200 "uber_None")
    = Ok (mkJobUpdate "uber_None" ASSIGNED None None) /\
  fst (cancel_job g' 200 "uber_None") = Ok true.
Proof.
  intros req g'.
  pose (p := Examples.stub "uber" None
               (Examples.mk_job "uber_None" ASSIGNED "uber") ASSIGNED []).
  assert (Hl : accept_quote_lookup Examples.colliding 100 "q2"
               = Ok (Examples.quote "q2" "uber", p))
    by (vm_compute; reflexivity).
  destruct (accepted_job_is_polled_at_its_provider (fun _ _ => Ok None)
              Examples.colliding 100 "q2" req _ p
              (Examples.mk_job "uber_None" ASSIGNED "uber") 200
              Hl eq_refl eq_refl) as (_ & _ & Hs & Hc & _).
  split; [exact Hs|exact Hc].
Defined.

Lemma sweep_keeps_exactly_the_unexpired_witness :
  active_quotes (cleanup_expired_quotes Examples.racing 1000) !! "q1"
    = Some (Examples.quote "q1" "p") /\
  cleanup_expired_quotes (cleanup_expired_quotes Examples.racing 1000) 1300
    = cleanup_expired_quotes Examples.racing 1300.
Proof.
  destruct (sweep_keeps_exactly_the_unexpired Examples.racing 1000)
    as (Hchar & _ & _ & _ & _ & Hlater).
  split.
  - apply Hchar. split; [vm_compute; reflexivity|vm_compute; discriminate].
  - apply Hlater. vm_compute; discriminate.
Defined.

Lemma accept_commutes_with_sweep_witness :
  let req := Examples.request NORMAL None in
  accept_quote (cleanup_expired_quotes Examples.racing 50) 100 "q1" req
  = (fst (accept_quote Examples.racing 100 "q1" req),
     cleanup_expired_quotes (snd (accept_quote Examples.racing 100 "q1" req)) 50).
Proof.
  intros req.
  assert (Hlive : forall q, active_quotes Examples.racing !! "q1" = Some q ->
                            (50 <= expires_at q)%Q).
  { intros q Hq.
    assert (Hq1 : active_quotes Examples.racing !! "q1"
                  = Some (Examples.quote "q1" "p")) by (vm_compute; reflexivity).
    rewrite Hq1 in Hq. injection Hq as <-. vm_compute. discriminate. }
  exact (accept_commutes_with_sweep Examples.racing 50 100 "q1" req Hlive).
Defined.

Lemma status_and_cancel_keep_the_registry_keys_witness :
  get_job_status Examples.completed 10 "nope"
    = (Raise JobNotFound, Examples.completed) /\
  dom (active_jobs (snd (cancel_job Examples.completed 10 "j1")))
    = dom (active_jobs Examples.completed).
Proof.
  destruct (status_and_cancel_keep_the_registry_keys Examples.completed 10 "nope")
    as (Hnone & _).
  destruct (status_and_cancel_keep_the_registry_keys Examples.completed 10 "j1")
    as (_ & _ & _ & Hdom & _).
  split; [|exact Hdom].
  apply Hnone. vm_compute. reflexivity.
Defined.

Lemma provider_answer_is_registered_witness :
  let job := Examples.mk_job "job_b" ASSIGNED "p" in
  exists w',
    AcceptRace.exec_event "q1" Examples.both_awaiting
      (AcceptRace.CreateReturned 1 job) = Some w' /\
    active_jobs (AcceptRace.gateway w') !! "job_b" = Some job.
Proof.
  intros job.
  destruct (AcceptRace.exec_event "q1" Examples.both_awaiting
              (AcceptRace.CreateReturned 1 job)) as [w'|] eqn:E;
    [|vm_compute in E; discriminate E].
  exists w'. split; [reflexivity|].
  exact (proj1 (provider_answer_is_registered "q1" Examples.both_awaiting 1
                  job w' E)).
Defined.
End GatewayInstances.
